(** * Open MCT framework glue: a shallow embedding

  The development follows four source files of the repository:

  - [platform/framework/src/PartialConstructor.js]
  - [platform/framework/src/ExtensionRegistrar.js]
  - the copy policy of [platform/entanglement] ([CopyPolicy])
  - [platform/features/table/src/TableConfiguration.js]

  JavaScript objects that the code uses as dictionaries are finite maps
  ([gmap]) over their own string keys, arrays are lists, and a call that
  may raise is a computation in the [result] monad below.  Such an object
  is created by [{}] and inherits the members of [Object.prototype]:
  where the code reads a dictionary by a name that may be one of these
  ([JS.inherited]), the read is either modelled with the inherited member
  (the registrar) or the property is stated for the other names. *)

From stdpp Require Import base option list strings pretty gmap fin_maps.

Set Default Proof Using "Type".

(** ** The fragment of JavaScript the four files rely on *)

Module JS.

(** Exceptions the modelled code can raise by itself. *)
Inductive error : Type :=
  | TypeError (message : string).

(** A call either completes with a value or raises. *)
Inductive result (A : Type) : Type :=
  | Ok (a : A)
  | Throw (e : error).
Global Arguments Ok {A} a.
Global Arguments Throw {A} e.

Definition bind {A B} (r : result A) (k : A → result B) : result B :=
  match r with
  | Ok a => k a
  | Throw e => Throw e
  end.

(** The two array-like objects the code manipulates.  A genuine [Array]
  inherits the methods of [Array.prototype]; the [arguments] object of a
  function call only has indexed elements and [length], and inherits from
  [Object.prototype], which has no [slice] or [concat]. *)
Inductive array_like (A : Type) : Type :=
  | JSArray (elements : list A)
  | Arguments (elements : list A).
Global Arguments JSArray {A} elements.
Global Arguments Arguments {A} elements.

(** [o.slice]: the property read.  On [arguments] it is [undefined]. *)
Definition get_slice {A} (o : array_like A) : option (list A) :=
  match o with
  | JSArray elements => Some elements
  | Arguments _ => None
  end.

(** [o.slice()]: calling [undefined] raises a [TypeError]; on an array the
  call without arguments is a shallow copy. *)
Definition slice {A} (o : array_like A) : result (list A) :=
  match get_slice o with
  | Some copy => Ok copy
  | None => Throw (TypeError "arguments.slice is not a function")
  end.

(** Truthiness of an optional string property: [undefined] and the empty
  string are falsy, every other string is truthy. *)
Definition truthy_string (v : option string) : bool :=
  match v with
  | Some s => negb (String.eqb s "")
  | None => false
  end.

(** The names a plain object created by [{}] inherits from
  [Object.prototype], with those of ECMAScript's Annex B that browsers
  provide.  Read off an object without an own property of that name, each
  yields the inherited member: a function, or for [__proto__] the
  prototype object.  Such a value is truthy, is not [undefined], is no
  boolean and has no [text].  An assignment to any of these names but
  [__proto__] creates an own property as for any other name; an
  assignment to [__proto__] creates none. *)
Definition Object_prototype_names : list string :=
  ["constructor"; "hasOwnProperty"; "isPrototypeOf"; "propertyIsEnumerable";
   "toLocaleString"; "toString"; "valueOf"; "__proto__";
   "__defineGetter__"; "__defineSetter__"; "__lookupGetter__";
   "__lookupSetter__"].

Definition inherited (name : string) : bool :=
  existsb (String.eqb name) Object_prototype_names.

(** [v || d] on an optional array: an array, even an empty one, is truthy. *)
Definition or_else {A} (v : option A) (d : A) : A :=
  match v with Some a => a | None => d end.

(** Conversion of an array index to a string, as string concatenation with
  a number does it: the decimal numeral. *)
Definition number_to_string (n : nat) : string := pretty n.

(** [Array.prototype.forEach] with a callback [f element index] that
  threads a state and may raise; [i] is the index of the head. *)
Fixpoint forEach_from {A St} (f : A → nat → St → result St)
  (l : list A) (i : nat) (s : St) : result St :=
  match l with
  | [] => Ok s
  | a :: l' => bind (f a i s) (forEach_from f l' (S i))
  end.

Definition forEach {A St} (f : A → nat → St → result St)
  (l : list A) (s : St) : result St :=
  forEach_from f l 0 s.

End JS.

Notation "'let!' x ':=' c 'in' k" := (JS.bind c (λ x, k))
  (at level 10, x name, c at level 100, k at level 200, only parsing).

(** ** PartialConstructor.js *)

Module PartialConstructor.
Import JS.

Section Curry.
(** [V]: the values passed to constructors and stored in instances. *)
Context {V : Type}.

(** A constructor function, as [PartialConstructor] uses it:
  [Constructor.apply(instance, args)] runs the body against [instance]
  (the returned map is the instance after the body's assignments; the
  body's own return value is discarded by the caller) and may raise;
  [Constructor.prototype] is a value. *)
Record Constructor : Type := {
  apply : gmap string V → list V → result (gmap string V);
  prototype : V;
}.

(** The inner function, "Bind everything else". *)
Definition bindOther (F : Constructor) (dependencies : list V)
    (arguments : list V) : result (gmap string V) :=
  let! other := slice (Arguments arguments) in
  let instance : gmap string V := ∅ in
  let! instance := apply F instance (dependencies ++ other) in
  let instance := <["prototype" := prototype F]> instance in
  Ok instance.

(** The function [PartialConstructor(Constructor)] returns,
  "Bind services". *)
Definition PartialConstructor (F : Constructor) (arguments : list V)
    : result (list V → result (gmap string V)) :=
  let! dependencies := slice (Arguments arguments) in
  Ok (bindOther F dependencies).

End Curry.
Global Arguments Constructor V : clear implicits.

End PartialConstructor.

(** ** ExtensionRegistrar.js *)

Module ExtensionRegistrar.
Import JS.

(** Modelled from the spec: [Constants.EXTENSION_SUFFIX] of the module
  [./Constants], which is not among the sources.  The specification's
  scenario names the aggregate of category [actions] as [actions[]], and
  the comment above [registerExtensionArraysForCategory] gives [types[]]. *)
Definition EXTENSION_SUFFIX : string := "[]".

Section Registrar.
(** [Body]: whatever an extension carries besides [key] and [depends]. *)
Context {Body : Type}.

(** [typeof extension]. *)
Inductive typeof_tag : Type :=
| TFunction
| TObject.

(** A resolved extension: a constructor function or a plain object, with
  the optional properties [key] and [depends] the registrar reads. *)
Record extension : Type := {
  typeof : typeof_tag;
  key : option string;
  depends : option (list string);
  body : Body;
}.

(** The three kinds of function the registrar hands to [app.factory]. *)
Inductive factory_fn : Type :=
| PartialConstructorOf (e : extension)   (* new PartialConstructor(e) *)
| staticFunction (value : extension)     (* function () { return value; } *)
| echo.                                  (* function echo *)

(** An element of the array passed to [app.factory]: the name of a
  dependency, or the function that ends the array. *)
Inductive service_item : Type :=
| Dep (name : string)
| Fn (f : factory_fn).

(** What the Angular module [app] has been asked to do, oldest first.
  Custom registrars may call any method of the module. *)
Inductive app_call : Type :=
| app_factory (name : string) (argument : list service_item)
| other_call (method : string) (name : string).

(** The name under which a call registers a factory, if it does. *)
Definition factory_name (c : app_call) : option string :=
  match c with
  | app_factory name _ => Some name
  | other_call _ _ => None
  end.

#[local] Set Warnings "-register-all".

(** What the injector hands to a factory function and gets back from it:
  an extension object, the function a partial constructor returns once its
  dependencies are bound, or an array of such values. *)
Inductive resolved : Type :=
| RExtension (e : extension)
| RBound (e : extension) (dependencies : list resolved)
| RArray (elements : list resolved).

(** Calling one of the three functions with the argument list
  [arguments].  [echo] and the function [new PartialConstructor(e)] returns
  both start with [arguments.slice()]. *)
Definition call (f : factory_fn) (arguments : list resolved)
    : result resolved :=
  match f with
  | staticFunction value => Ok (RExtension value)
  | echo =>
      let! copy := slice (Arguments arguments) in
      Ok (RArray copy)
  | PartialConstructorOf e =>
      let! dependencies := slice (Arguments arguments) in
      Ok (RBound e dependencies)
  end.

(** A custom registrar is a callback of [forEach] acting on [app]. *)
Definition custom_registrar : Type :=
  extension → nat → list app_call → result (list app_call).

(** The registrar: the module [app], what [$log.warn] has received, and the
  closure variable [registeredCategories]. *)
Record registrar : Type := {
  app : list app_call;
  warnings : list string;
  registeredCategories : gmap string bool;
}.

(** The registrar right after construction. *)
Definition ExtensionRegistrar (app0 : list app_call) (log0 : list string)
    : registrar :=
  {| app := app0; warnings := log0; registeredCategories := ∅ |}.

Definition identify (category : string) (extension : extension)
    (index : nat) : string :=
  let name :=
    if truthy_string (key extension)
    then or_else (key extension) "" +:+ "-" +:+ number_to_string index
    else number_to_string index in
  category +:+ "[" +:+ name +:+ "]".

Definition makeServiceArgument (category : string) (extension : extension)
    : list service_item :=
  let dependencies := or_else (depends extension) [] in
  let factory :=
    match typeof extension with
    | TFunction => PartialConstructorOf extension
    | TObject => staticFunction extension
    end in
  (Dep <$> dependencies) ++ [Fn factory].

Definition registerExtensionArraysForCategory (category : string)
    (names : list string) (app : list app_call) : list app_call :=
  let name := category +:+ EXTENSION_SUFFIX in
  app ++ [app_factory name ((Dep <$> names) ++ [Fn echo])].

(** The inner function [registerExtension]; the state it touches is the
  local array [names] and the module [app]. *)
Definition registerExtension (category : string) (extension : extension)
    (index : nat) (s : list string * list app_call)
    : result (list string * list app_call) :=
  let name := identify category extension index in
  let names := s.1 ++ [name] in
  Ok (names, s.2 ++ [app_factory name (makeServiceArgument category extension)]).

Definition warning (category : string) : string :=
  "Tried to register extensions for category " +:+ category +:+
  " more than once. Ignoring all but first set.".

(** [customRegistrars] after [customRegistrars = customRegistrars || {}]. *)
Context (customRegistrars : gmap string custom_registrar).

(** Truthiness of [registeredCategories[category]]: the own flag when the
  category has one; otherwise the member inherited from
  [Object.prototype], which is truthy, when the category bears such a
  name, and [undefined] when it does not.  The flag is only ever assigned
  where this read was falsy, hence under a name that is not inherited. *)
Definition is_registered (r : registrar) (category : string) : bool :=
  match registeredCategories r !! category with
  | Some b => b
  | None => inherited category
  end.

(** Returns the new state and the JavaScript return value: [Some true], or
  [None] for [undefined]. *)
Definition registerExtensionsForCategory (category : string)
    (extensions : list extension) (r : registrar)
    : result (registrar * option bool) :=
  let names : list string := [] in
  if is_registered r category then
    Ok ({| app := app r;
           warnings := warnings r ++ [warning category];
           registeredCategories := registeredCategories r |}, None)
  else
    let! app' :=
      match customRegistrars !! category with
      | Some custom =>
          forEach (λ e i, custom e i) extensions (app r)
      | None =>
          let! s := forEach (registerExtension category) extensions
                     (names, app r) in
          Ok (registerExtensionArraysForCategory category s.1 s.2)
      end in
    Ok ({| app := app';
           warnings := warnings r;
           registeredCategories := <[category := true]> (registeredCategories r) |},
        Some true).

(** [extensionGroup] is given by its own keys in the order of
  [Object.keys], each with its array of extensions. *)
Fixpoint registerCategories (extensionGroup : list (string * list extension))
    (r : registrar) : result registrar :=
  match extensionGroup with
  | [] => Ok r
  | (category, extensions) :: rest =>
      let! s := registerExtensionsForCategory category extensions r in
      registerCategories rest s.1
  end.

(** [registerExtensions]: returns the module [app] (here with the whole
  registrar state, of which it is a part). *)
Definition registerExtensionGroup
    (extensionGroup : list (string * list extension)) (r : registrar)
    : result (registrar * list app_call) :=
  let! r' := registerCategories extensionGroup r in
  Ok (r', app r').

Definition registerExtensions := registerExtensionGroup.

End Registrar.
Global Arguments extension Body : clear implicits.
Global Arguments factory_fn Body : clear implicits.
Global Arguments service_item Body : clear implicits.
Global Arguments app_call Body : clear implicits.
Global Arguments custom_registrar Body : clear implicits.
Global Arguments registrar Body : clear implicits.
Global Arguments resolved Body : clear implicits.

End ExtensionRegistrar.

(** ** CopyPolicy (platform/entanglement) *)

Module CopyPolicy.

(** A capability object, as far as the policy looks at it: the type
  capability answers [hasFeature]. *)
Record Capability : Type := {
  hasFeature : string → bool;
}.

(** A domain object; [getCapability] yields [None] for [undefined]. *)
Record DomainObject : Type := {
  getCapability : string → option Capability;
}.

Record ActionMetadata : Type := {
  key : option string;
}.

Record Action : Type := {
  getMetadata : ActionMetadata;
}.

(** The action context; an absent property is [None]. *)
Record context : Type := {
  context_selectedObject : option DomainObject;
  context_domainObject : option DomainObject;
}.

Definition allowCreation (domainObject : option DomainObject) : bool :=
  let type :=
    match domainObject with
    | Some o => getCapability o "type"
    | None => None
    end in
  match type with
  | Some t => hasFeature t "creation"
  | None => false
  end.

Definition selectedObject (context : context) : option DomainObject :=
  match context_selectedObject context with
  | Some o => Some o
  | None => context_domainObject context
  end.

Definition allow (action : Action) (context : context) : bool :=
  let key := key (getMetadata action) in
  if bool_decide (key = Some "copy")
  then allowCreation (selectedObject context)
  else true.

End CopyPolicy.

(** ** TableConfiguration.js *)

Module TableConfiguration.
Import JS.

Section Tables.
(** Telemetry metadata entries, the formatter, the telemetry object and
  datum are opaque to this file; [V] stands for property values the code
  never inspects. *)
Context {DomainMetadata RangeMetadata Formatter TelemetryObject Datum V : Type}.

(** The three column classes, which live in the modules [./DomainColumn],
  [./RangeColumn] and [./NameColumn]; here a column is the constructor
  call that made it. *)
Inductive column : Type :=
| DomainColumn (domainMetadata : DomainMetadata) (telemetryFormatter : Formatter)
| RangeColumn (rangeMetadata : RangeMetadata) (telemetryFormatter : Formatter)
| NameColumn.

(** What [column.getValue] returns when it is not [undefined]: an object
  with an optional [text] and further properties. *)
Record columnValue : Type := {
  text : option string;
  value_other : gmap string V;
}.

(** The two methods of a column the table calls. *)
Context (getTitle : column → option string).
Context (getValue : column → TelemetryObject → Datum → option columnValue).

Record metadatum : Type := {
  domains : option (list DomainMetadata);
  ranges : option (list RangeMetadata);
}.

(** The part of a domain object's model the table reads and writes:
  [model.configuration.table.columns], each level optional and with other
  properties besides. *)
Record Table : Type := {
  table_columns : option (gmap string bool);
  table_other : gmap string V;
}.

Record Configuration : Type := {
  configuration_table : option Table;
  configuration_other : gmap string V;
}.

Record Model : Type := {
  model_configuration : option Configuration;
  model_other : gmap string V;
}.

(** A domain object: its model and the capabilities it was asked to use,
  oldest first. *)
Record DomainObject : Type := {
  getModel : Model;
  capabilitiesUsed : list string;
}.

(** Modelled from the spec: the domain object's [useCapability], which is
  consumed here and defined elsewhere.  Following the specification, the
  model is mutated only through the mutation capability: the call applies
  the mutator to the model.  The mutator also writes a field of its
  caller, threaded through as [s]. *)
Definition useCapability {St} (name : string)
    (mutator : Model → St → Model * St) (o : DomainObject) (s : St)
    : DomainObject * St :=
  if String.eqb name "mutation" then
    let r := mutator (getModel o) s in
    ({| getModel := r.1; capabilitiesUsed := capabilitiesUsed o ++ [name] |},
     r.2)
  else
    ({| getModel := getModel o;
        capabilitiesUsed := capabilitiesUsed o ++ [name] |}, s).

Record TableConfiguration : Type := {
  domainObject : DomainObject;
  columns : list column;
  columnConfiguration : gmap string bool;
  telemetryFormatter : Formatter;
}.

Definition new_TableConfiguration (domainObject : DomainObject)
    (telemetryFormatter : Formatter) : TableConfiguration :=
  {| domainObject := domainObject;
     columns := [];
     columnConfiguration := ∅;
     telemetryFormatter := telemetryFormatter |}.

Definition set_columns (cols : list column) (self : TableConfiguration)
    : TableConfiguration :=
  {| domainObject := domainObject self;
     columns := cols;
     columnConfiguration := columnConfiguration self;
     telemetryFormatter := telemetryFormatter self |}.

(** [this.columns.push(column)] without an index, and
  [this.columns.splice(index, 0, column)] with one. *)
Definition addColumn (column : column) (index : option nat)
    (self : TableConfiguration) : TableConfiguration :=
  match index with
  | None => set_columns (columns self ++ [column]) self
  | Some index =>
      set_columns (take index (columns self) ++ column :: drop index (columns self))
        self
  end.

Definition buildColumns (metadata : option (list metadatum))
    (self : TableConfiguration) : TableConfiguration :=
  let self := set_columns [] self in
  match metadata with
  | Some metadata =>
      let self :=
        foldl (λ self metadatum,
          let self :=
            foldl (λ self domainMetadata,
                addColumn (DomainColumn domainMetadata (telemetryFormatter self))
                  None self)
              self (or_else (domains metadatum) []) in
          foldl (λ self rangeMetadata,
              addColumn (RangeColumn rangeMetadata (telemetryFormatter self))
                None self)
            self (or_else (ranges metadatum) []))
          self metadata in
      if 0 <? length (columns self)
      then addColumn NameColumn (Some 0) self
      else self
  | None => self
  end.

Definition getColumnTitle (column : column) : option string :=
  getTitle column.

(** [self.getColumnTitle(column) || 'Column ' + (i + 1)]. *)
Definition titleOrDefault (column : column) (i : nat) : string :=
  if truthy_string (getColumnTitle column)
  then or_else (getColumnTitle column) ""
  else "Column " +:+ number_to_string (i + 1).

Definition getHeaders (self : TableConfiguration) : list string :=
  imap (λ i column, titleOrDefault column i) (columns self).

(** The test guarding the assignment in [getRowValues], on
  [rowObject[columnTitle]]: the outer [None] is an absent key, [Some None]
  a key whose value is [undefined]. *)
Definition replaceable (entry : option (option columnValue)) : bool :=
  match entry with
  | Some (Some v) =>
      match text v with
      | None => true
      | Some t => String.length t =? 0
      end
  | _ => true
  end.

(** The callback of [reduce] in [getRowValues]. *)
Definition rowStep (telemetryObject : TelemetryObject) (datum : Datum)
    (rowObject : gmap string (option columnValue)) (column : column) (i : nat)
    : gmap string (option columnValue) :=
  let columnTitle := titleOrDefault column i in
  let columnValue := getValue column telemetryObject datum in
  let columnValue :=
    match columnValue with
    | Some v =>
        match text v with
        | None => Some {| text := Some ""; value_other := value_other v |}
        | Some _ => Some v
        end
    | None => None
    end in
  if replaceable (rowObject !! columnTitle)
  then <[columnTitle := columnValue]> rowObject
  else rowObject.

(** [Array.prototype.reduce] with an index, started at index [i]. *)
Fixpoint reduce_from {A B} (f : B → A → nat → B) (l : list A) (i : nat)
    (acc : B) : B :=
  match l with
  | [] => acc
  | a :: l' => reduce_from f l' (S i) (f acc a i)
  end.

Definition getRowValues (telemetryObject : TelemetryObject) (datum : Datum)
    (self : TableConfiguration) : gmap string (option columnValue) :=
  reduce_from (rowStep telemetryObject datum) (columns self) 0 ∅.

(** The file-local function [equal]: [===] on two properties compares the
  optional values, [undefined] standing for an absent key. *)
Definition equal (obj1 obj2 : gmap string bool) : bool :=
  let obj1Keys := (map_to_list obj1).*1 in
  let obj2Keys := (map_to_list obj2).*1 in
  bool_decide (length obj1Keys = length obj2Keys) &&
  forallb (λ key, bool_decide (obj1 !! key = obj2 !! key)) obj1Keys.

(** The mutator passed to the mutation capability; besides the model it
  assigns [self.columnConfiguration]. *)
Definition columnMutator (columnConfig : gmap string bool) (model : Model)
    (stored : gmap string bool) : Model * gmap string bool :=
  let configuration :=
    or_else (model_configuration model)
      {| configuration_table := None; configuration_other := ∅ |} in
  let table :=
    or_else (configuration_table configuration)
      {| table_columns := None; table_other := ∅ |} in
  let table :=
    {| table_columns := Some columnConfig; table_other := table_other table |} in
  let configuration :=
    {| configuration_table := Some table;
       configuration_other := configuration_other configuration |} in
  ({| model_configuration := Some configuration;
      model_other := model_other model |},
   columnConfig).

Definition saveColumnConfiguration (columnConfig : gmap string bool)
    (self : TableConfiguration) : TableConfiguration :=
  if negb (equal (columnConfiguration self) columnConfig) then
    let r := useCapability "mutation" (columnMutator columnConfig)
               (domainObject self) (columnConfiguration self) in
    {| domainObject := r.1;
       columns := columns self;
       columnConfiguration := r.2;
       telemetryFormatter := telemetryFormatter self |}
  else self.

(** [((model.configuration || {}).table || {}).columns || {}] on the
  domain object's model. *)
Definition defaultColumnConfiguration (self : TableConfiguration)
    : gmap string bool :=
  let configuration :=
    or_else (model_configuration (getModel (domainObject self)))
      {| configuration_table := None; configuration_other := ∅ |} in
  let table :=
    or_else (configuration_table configuration)
      {| table_columns := None; table_other := ∅ |} in
  or_else (table_columns table) ∅.

(** The loop of [getColumnConfiguration] over the headers; a persisted
  value of type [undefined] is an absent key of [defaultConfig].  The
  maps describe the two objects for headers that are not names inherited
  from [Object.prototype] ([JS.inherited]): under such a name the read of
  [defaultConfig] yields the inherited member, which is no boolean. *)
Definition getColumnConfiguration (self : TableConfiguration)
    : gmap string bool :=
  let configuration : gmap string bool := ∅ in
  let defaultConfig := defaultColumnConfiguration self in
  foldl (λ configuration columnTitle,
      <[columnTitle :=
          match defaultConfig !! columnTitle with
          | None => true
          | Some visible => visible
          end]> configuration)
    configuration (getHeaders self).

(** The columns one metadatum contributes: its domains, then its ranges. *)
Definition columnsOfMetadatum (formatter : Formatter) (m : metadatum)
    : list column :=
  ((λ d, DomainColumn d formatter) <$> or_else (domains m) []) ++
  ((λ r, RangeColumn r formatter) <$> or_else (ranges m) []).

(** The order of the specification's sentence, "domain columns first, then
  range columns, then a synthesized name column prepended": every domain
  column of the metadata, then every range column, behind the name
  column. *)
Definition domains_then_ranges (formatter : Formatter)
    (metadata : list metadatum) : list column :=
  NameColumn ::
  (metadata ≫= λ m, (λ d, DomainColumn d formatter) <$> or_else (domains m) []) ++
  (metadata ≫= λ m, (λ r, RangeColumn r formatter) <$> or_else (ranges m) []).

(** Shallow key-wise equality in the specification's words: the same key
  set, and the identical value at each key. *)
Definition shallow_equal (obj1 obj2 : gmap string bool) : Prop :=
  dom obj1 = dom obj2 ∧ ∀ key, key ∈ dom obj1 → obj1 !! key = obj2 !! key.

End Tables.
Global Arguments column : clear implicits.
Global Arguments columnValue : clear implicits.
Global Arguments metadatum : clear implicits.
Global Arguments Table : clear implicits.
Global Arguments Configuration : clear implicits.
Global Arguments Model : clear implicits.
Global Arguments DomainObject : clear implicits.
Global Arguments TableConfiguration : clear implicits.

End TableConfiguration.

(** ** MCTRepresentation: the maps built when the directive is created *)

Module MCTRepresentation.
Import JS.

(** [Array.prototype.join]: an element that is [undefined] contributes the
  empty string. *)
Fixpoint join (separator : string) (l : list (option string)) : string :=
  match l with
  | [] => ""
  | [x] => or_else x ""
  | x :: l' => or_else x "" +:+ separator +:+ join separator l'
  end.

Record Bundle : Type := {
  path : option string;
  resources : option string;
}.

(** A representation or view extension, as far as the directive reads it. *)
Record representation : Type := {
  key : string;
  bundle : Bundle;
  templateUrl : option string;
  uses : option (list string);
  gestures : option (list string);
}.

(** The closure variables [pathMap] and [representationMap], by their own
  properties. *)
Record maps : Type := {
  pathMap : gmap string string;
  representationMap : gmap string representation;
}.

(** [o[name] = v] on a plain object, as far as its own properties go:
  under [__proto__] the assignment reaches the accessor of
  [Object.prototype] and creates no own property (an object assigned this
  way moreover becomes the prototype of [o], which these maps of own
  properties do not follow). *)
Definition assign {A} (name : string) (v : A) (o : gmap string A)
    : gmap string A :=
  if String.eqb name "__proto__" then o else <[name := v]> o.

(** The local [path] of the loop body. *)
Definition templatePath (representation : representation) : string :=
  join "/" [path (bundle representation);
            resources (bundle representation);
            templateUrl representation].

(** The body of the loop over [representations.concat(views)]. *)
Definition assembleOne (m : maps) (representation : representation) : maps :=
  {| pathMap :=
       assign (key representation) (templatePath representation) (pathMap m);
     representationMap :=
       assign (key representation) representation (representationMap m) |}.

(** "Assemble all representations and views". *)
Definition assemble (representations views : list representation) : maps :=
  foldl assembleOne {| pathMap := ∅; representationMap := ∅ |}
    (representations ++ views).

End MCTRepresentation.

(** ** Concrete tables *)

Module TableExamples.
Import TableConfiguration.

(** A domain object with an empty model. *)
Definition plainObject : DomainObject unit :=
  {| getModel := {| model_configuration := None; model_other := ∅ |};
     capabilitiesUsed := [] |}.

(** A table over string-named metadata entries. *)
Definition plainTable : TableConfiguration string string unit unit :=
  new_TableConfiguration plainObject tt.

(** Columns titled by kind, so that a domain and a range column share the
  title [Value]; the value's text is the metadata entry's name. *)
Definition kindTitle (c : column string string unit) : option string :=
  match c with
  | DomainColumn _ _ => Some "Value"
  | RangeColumn _ _ => Some "Value"
  | NameColumn => Some "Name"
  end.

Definition nameValue (c : column string string unit) (o : unit) (d : unit)
    : option (columnValue unit) :=
  match c with
  | DomainColumn m _ => Some {| text := Some m; value_other := ∅ |}
  | RangeColumn m _ => Some {| text := Some m; value_other := ∅ |}
  | NameColumn => None
  end.

End TableExamples.

(** * Properties *)

(** ** Strings and numerals *)

Module StringFacts.
Import JS.

Lemma string_length_app (s1 s2 : string) :
  String.length (s1 +:+ s2) = String.length s1 + String.length s2.
Proof. induction s1 as [|a s1 IH]; simpl; [done | by rewrite IH]. Qed.

Lemma string_app_assoc (s1 s2 s3 : string) :
  (s1 +:+ s2) +:+ s3 = s1 +:+ s2 +:+ s3.
Proof.
  induction s1 as [|a s1 IH]; [done |].
  change (String a ((s1 +:+ s2) +:+ s3) = String a (s1 +:+ s2 +:+ s3)).
  by rewrite IH.
Qed.

Lemma pretty_N_go_nonempty (x : N) (s : string) :
  s ≠ "" → pretty_N_go x s ≠ "".
Proof.
  revert s. induction (N.lt_wf_0 x) as [x _ IH]; intros s Hs.
  destruct (decide (x = 0)%N) as [-> | Hx].
  - by rewrite pretty_N_go_0.
  - rewrite pretty_N_go_step by lia.
    apply IH; [apply N.div_lt; lia | done].
Qed.

Lemma number_to_string_nonempty (n : nat) : number_to_string n ≠ "".
Proof.
  unfold number_to_string, pretty, pretty_nat, pretty, pretty_N.
  case_decide as Hn; [done |].
  rewrite pretty_N_go_step by lia.
  by apply pretty_N_go_nonempty.
Qed.

Lemma truthy_string_Some (k : string) :
  truthy_string (Some k) = true ↔ k ≠ "".
Proof.
  simpl. rewrite negb_true_iff. apply String.eqb_neq.
Qed.

End StringFacts.

(** ** The partial constructor *)

Module PartialConstructorFacts.
Import JS PartialConstructor.

Section Facts.
Context {V : Type}.

(** Reading [slice] off an [arguments] object never finds a method. *)
Lemma slice_arguments (l : list V) :
  slice (Arguments l) = Throw (TypeError "arguments.slice is not a function").
Proof. reflexivity. Qed.

(** On a genuine array the same call is a copy. *)
Lemma slice_array (l : list V) : slice (JSArray l) = Ok l.
Proof. reflexivity. Qed.

(** C5.  The claim is that [PartialConstructor(F)] applied to the
  dependencies [d] yields a function which, applied to [a], applies [F] to
  [d ++ a] against a fresh object, and that neither stage raises.  The
  code raises at the first stage, whatever [F] and [d] are, and the second
  stage would raise on its own first statement whatever it were given:
  both begin with [arguments.slice()]. *)
Theorem PartialConstructor_raises (F : Constructor V) (d a : list V) :
  PartialConstructor F d = Throw (TypeError "arguments.slice is not a function") ∧
  (∀ dependencies,
     bindOther F dependencies a = Throw (TypeError "arguments.slice is not a function")).
Proof. split; [reflexivity | intros; reflexivity]. Qed.

End Facts.
End PartialConstructorFacts.

(** ** The extension registrar *)

Module ExtensionRegistrarFacts.
Import JS ExtensionRegistrar StringFacts.

Section Facts.
Context {Body : Type}.
Implicit Types (e : extension Body) (r : registrar Body).
Implicit Types (category : string) (extensions : list (extension Body)).
Implicit Types (customRegistrars : gmap string (custom_registrar Body)).

(** [identify] in the two branches of its conditional. *)
Lemma identify_truthy_key category k e i :
  key e = Some k → k ≠ "" →
  identify category e i =
    category +:+ "[" +:+ k +:+ "-" +:+ number_to_string i +:+ "]".
Proof.
  intros Hk Hne. unfold identify.
  rewrite Hk, (proj2 (truthy_string_Some k) Hne). simpl.
  by rewrite string_app_assoc.
Qed.

Lemma identify_falsy_key category e i :
  truthy_string (key e) = false →
  identify category e i = category +:+ "[" +:+ number_to_string i +:+ "]".
Proof. intros Hk. unfold identify. by rewrite Hk. Qed.

(** No individual name is the name of its category's aggregate. *)
Lemma identify_not_aggregate category e i :
  identify category e i ≠ category +:+ EXTENSION_SUFFIX.
Proof.
  unfold identify, EXTENSION_SUFFIX. intros Heq.
  apply (inj (String.append category)) in Heq.
  apply (f_equal String.length) in Heq.
  rewrite !string_length_app in Heq.
  pose proof (number_to_string_nonempty i) as Hne.
  destruct (truthy_string (key e)).
  - rewrite !string_length_app in Heq. simpl in Heq. lia.
  - destruct (number_to_string i); [done | simpl in Heq; lia].
Qed.

(** The loop over the extensions of a category, started at index [i]. *)
Lemma forEach_registerExtension category extensions (i : nat)
    (names : list string) (calls : list (app_call Body)) :
  forEach_from (registerExtension category) extensions i (names, calls) =
    Ok (names ++ imap (λ j e, identify category e (i + j)) extensions,
        calls ++ imap (λ j e, app_factory (identify category e (i + j))
                               (makeServiceArgument category e)) extensions).
Proof.
  revert i names calls.
  induction extensions as [|e extensions IH]; intros i names calls; simpl.
  - by rewrite !app_nil_r.
  - rewrite IH, <- !app_assoc. simpl. rewrite Nat.add_0_r.
    f_equal. f_equal; do 2 f_equal; apply imap_ext; intros j x _; simpl;
      repeat f_equal; lia.
Qed.

(** Among the individual registrations none carries the aggregate's name. *)
Lemma filter_individual category extensions (i : nat) :
  filter (λ c, factory_name c = Some (category +:+ EXTENSION_SUFFIX))
    (imap (λ j e, app_factory (identify category e (i + j))
                    (makeServiceArgument category e)) extensions) = [].
Proof.
  revert i. induction extensions as [|e extensions IH]; intros i; [done |].
  rewrite imap_cons, filter_cons_False.
  - rewrite <- (IH (S i)). f_equal. apply imap_ext. intros j x _. simpl.
    do 2 f_equal. lia.
  - simpl. intros [= Heq]. by apply identify_not_aggregate in Heq.
Qed.

(** The branch taken for a category that is not yet registered and has no
  custom registrar. *)
Lemma registerExtensionsForCategory_fresh customRegistrars r category extensions :
  is_registered r category = false →
  customRegistrars !! category = None →
  registerExtensionsForCategory customRegistrars category extensions r =
    Ok ({| app :=
             app r ++
             imap (λ i e, app_factory (identify category e i)
                            (makeServiceArgument category e)) extensions ++
             [app_factory (category +:+ EXTENSION_SUFFIX)
                ((Dep <$> imap (λ i e, identify category e i) extensions) ++
                 [Fn echo])];
           warnings := warnings r;
           registeredCategories := <[category := true]> (registeredCategories r) |},
        Some true).
Proof.
  intros Hreg Hcustom. unfold registerExtensionsForCategory.
  unfold custom_registrar in *. rewrite Hreg, Hcustom. unfold forEach.
  rewrite forEach_registerExtension. simpl.
  unfold registerExtensionArraysForCategory. by rewrite <- app_assoc.
Qed.

(** The branch taken for a category that is already registered. *)
Lemma registerExtensionsForCategory_registered customRegistrars r category extensions :
  is_registered r category = true →
  registerExtensionsForCategory customRegistrars category extensions r =
    Ok ({| app := app r;
           warnings := warnings r ++ [warning category];
           registeredCategories := registeredCategories r |}, None).
Proof. intros Hreg. unfold registerExtensionsForCategory. by rewrite Hreg. Qed.

(** A failing prefix fails the whole group, a completed one hands its
  registrar on. *)
Lemma registerCategories_app customRegistrars
    (g1 g2 : list (string * list (extension Body))) r :
  registerCategories customRegistrars (g1 ++ g2) r =
    bind (registerCategories customRegistrars g1 r)
         (registerCategories customRegistrars g2).
Proof.
  revert r. induction g1 as [|[category extensions] g1 IH]; intros r; [done |].
  simpl.
  destruct (registerExtensionsForCategory customRegistrars category extensions r)
    as [[r1 v] | err]; simpl; [apply IH | done].
Qed.

(** A registered category stays registered. *)
Lemma registerExtensionsForCategory_keeps_registered customRegistrars
    category category' extensions r r' (v : option bool) :
  is_registered r category = true →
  registerExtensionsForCategory customRegistrars category' extensions r
    = Ok (r', v) →
  is_registered r' category = true.
Proof.
  intros Hreg. unfold registerExtensionsForCategory.
  destruct (is_registered r category') eqn:Hreg'.
  - intros [= <- _]. exact Hreg.
  - match goal with |- bind ?m _ = _ → _ => destruct m as [calls | err] end;
      simpl; [| discriminate].
    intros [= <- _]. unfold is_registered in *. simpl.
    destruct (decide (category' = category)) as [-> | Hne].
    + by rewrite lookup_insert_eq.
    + by rewrite lookup_insert_ne.
Qed.

Lemma registerCategories_keeps_registered customRegistrars category
    (g : list (string * list (extension Body))) r r' :
  is_registered r category = true →
  registerCategories customRegistrars g r = Ok r' →
  is_registered r' category = true.
Proof.
  revert r. induction g as [|[category' extensions] g IH]; intros r Hreg; simpl.
  - by intros [= <-].
  - destruct (registerExtensionsForCategory customRegistrars category'
                extensions r) as [[r1 v] | err] eqn:Hstep; simpl; [| discriminate].
    apply IH.
    by eapply registerExtensionsForCategory_keeps_registered.
Qed.

(** The first registration of a category whose flag reads falsy (it has no
  own flag and bears no inherited name) and that has no custom registrar:
  [registerExtensions] with that category alone succeeds, appends to the
  module one factory per extension, in input order, followed by one
  aggregate factory named category plus suffix whose dependencies are the
  individual names; the aggregate is the only new registration under that
  name; the category is then registered and nothing is logged. *)
Lemma registerExtensions_fresh_category customRegistrars r category extensions :
  is_registered r category = false →
  customRegistrars !! category = None →
  let individual :=
    imap (λ i e, app_factory (identify category e i)
                   (makeServiceArgument category e)) extensions in
  let aggregate :=
    app_factory (category +:+ EXTENSION_SUFFIX)
      ((Dep <$> imap (λ i e, identify category e i) extensions) ++ [Fn echo]) in
  ∃ r',
    registerExtensions customRegistrars [(category, extensions)] r
      = Ok (r', app r') ∧
    app r' = app r ++ individual ++ [aggregate] ∧
    length individual = length extensions ∧
    length (app r') = length (app r) + length extensions + 1 ∧
    filter (λ c, factory_name c = Some (category +:+ EXTENSION_SUFFIX))
      (individual ++ [aggregate]) = [aggregate] ∧
    registeredCategories r' = <[category := true]> (registeredCategories r) ∧
    is_registered r' category = true ∧
    warnings r' = warnings r.
Proof.
  intros Hreg Hcustom individual aggregate.
  exists {| app := app r ++ individual ++ [aggregate];
            warnings := warnings r;
            registeredCategories := <[category := true]> (registeredCategories r) |}.
  split.
  { unfold registerExtensions, registerExtensionGroup. simpl.
    rewrite (registerExtensionsForCategory_fresh _ _ _ _ Hreg Hcustom).
    simpl. reflexivity. }
  simpl. fold individual aggregate.
  repeat split.
  - subst individual. by rewrite length_imap.
  - rewrite !length_app. subst individual. rewrite length_imap. simpl. lia.
  - rewrite filter_app. subst individual.
    pose proof (filter_individual category extensions 0) as Hnone.
    simpl in Hnone. rewrite Hnone.
    rewrite filter_cons_True; [done | reflexivity].
  - unfold is_registered. simpl. by rewrite lookup_insert_eq.
Qed.

(** C2.  For a category that is already registered, [registerExtensions]
  with that category succeeds; the module's registrations are unchanged,
  exactly one warning is appended to the log, the registered-category set
  is unchanged, and the outcome does not depend on the extensions given.
  Inside a larger group, once the categories before it have been handled,
  the category's entry contributes that one warning and nothing else. *)
Theorem registerExtensions_registered_category customRegistrars r category extensions :
  is_registered r category = true →
  ∃ r',
    registerExtensions customRegistrars [(category, extensions)] r
      = Ok (r', app r') ∧
    app r' = app r ∧
    warnings r' = warnings r ++ [warning category] ∧
    registeredCategories r' = registeredCategories r ∧
    (∀ extensions',
       registerExtensions customRegistrars [(category, extensions')] r
         = Ok (r', app r')) ∧
    (∀ before after r1,
       registerCategories customRegistrars before r = Ok r1 →
       registerCategories customRegistrars
         (before ++ (category, extensions) :: after) r =
       registerCategories customRegistrars after
         {| app := app r1;
            warnings := warnings r1 ++ [warning category];
            registeredCategories := registeredCategories r1 |}).
Proof.
  intros Hreg.
  exists {| app := app r;
            warnings := warnings r ++ [warning category];
            registeredCategories := registeredCategories r |}.
  split.
  { unfold registerExtensions, registerExtensionGroup. simpl.
    rewrite (registerExtensionsForCategory_registered _ _ _ _ Hreg).
    simpl. reflexivity. }
  simpl. repeat split.
  - intros extensions'.
    unfold registerExtensions, registerExtensionGroup. simpl.
    by rewrite (registerExtensionsForCategory_registered _ _ _ _ Hreg).
  - intros before after r1 Hbefore.
    rewrite registerCategories_app, Hbefore. simpl.
    rewrite registerExtensionsForCategory_registered; [done |].
    by eapply registerCategories_keeps_registered.
Qed.

(** C1.  The claim is that a category that is not in the
  registered-category set is registered by its first [registerExtensions]
  call: one factory per extension, one aggregate, and the category marked.
  The code decides by the truthiness of [registeredCategories[category]],
  and [registeredCategories] is a plain object: for the category
  [constructor], which a new registrar has not registered, the read
  yields the inherited member of [Object.prototype].  The first call for
  that category therefore logs the warning "more than once", registers
  nothing, and leaves the set as it was, whatever the extensions and the
  custom registrars are. *)
Theorem registerExtensions_inherited_name customRegistrars extensions
    (calls : list (app_call Body)) (log : list string) :
  registeredCategories (ExtensionRegistrar calls log) !! "constructor" = None ∧
  registerExtensions customRegistrars [("constructor", extensions)]
      (ExtensionRegistrar calls log) =
    Ok ({| app := calls;
           warnings := log ++ [warning "constructor"];
           registeredCategories := ∅ |}, calls).
Proof.
  split; [apply lookup_empty |].
  unfold registerExtensions, registerExtensionGroup. simpl.
  by rewrite registerExtensionsForCategory_registered.
Qed.

(** C3, as amended.  An extension whose [key] is a non-empty string is
  registered under category[key-index]; one without a [key], or whose
  [key] is the empty string, under category[index]; an extension with key
  [k] at index 2 of category [types] is registered as [types[k-2]]. *)
Theorem identify_name category e (index : nat) :
  (∀ k, key e = Some k → k ≠ "" →
     identify category e index =
       category +:+ "[" +:+ k +:+ "-" +:+ number_to_string index +:+ "]") ∧
  (key e = None ∨ key e = Some "" →
     identify category e index =
       category +:+ "[" +:+ number_to_string index +:+ "]") ∧
  (∀ (t : typeof_tag) (b : Body),
     identify "types"
       {| typeof := t; key := Some "k"; depends := Some ["a"; "b"]; body := b |}
       2 = "types[k-2]").
Proof.
  split; [| split].
  - intros k Hk Hne. by apply identify_truthy_key.
  - intros [Hk | Hk]; apply identify_falsy_key; by rewrite Hk.
  - intros t b. reflexivity.
Qed.

(** C4.  The claim is that the aggregate factory, called with the resolved
  extensions, returns them as a list and does not raise.  The function
  registered as the aggregate of a category is [echo], and [echo] raises a
  [TypeError] on every argument list: [arguments] has no [slice]. *)
Theorem aggregate_factory_raises category (names : list string)
    (calls : list (app_call Body)) (values : list (resolved Body)) :
  last (registerExtensionArraysForCategory category names calls) =
    Some (app_factory (category +:+ EXTENSION_SUFFIX)
            ((Dep <$> names) ++ [Fn echo])) ∧
  call echo values = Throw (TypeError "arguments.slice is not a function").
Proof.
  split; [| reflexivity].
  unfold registerExtensionArraysForCategory. by rewrite last_snoc.
Qed.

End Facts.

(** The first registration at the specification's scenario: registering
  [{actions: [{key: "copy"}, {key: "delete"}]}] against a new registrar. *)
Lemma registerExtensions_fresh_category_witness :
  let copy := {| typeof := TObject; key := Some "copy"; depends := None; body := tt |} in
  let delete := {| typeof := TObject; key := Some "delete"; depends := None; body := tt |} in
  ∃ r',
    registerExtensions ∅ [("actions", [copy; delete])] (ExtensionRegistrar [] [])
      = Ok (r', app r') ∧
    app r' =
      [app_factory "actions[copy-0]" [Fn (staticFunction copy)];
       app_factory "actions[delete-1]" [Fn (staticFunction delete)];
       app_factory "actions[]"
         [Dep "actions[copy-0]"; Dep "actions[delete-1]"; Fn echo]] ∧
    is_registered r' "actions" = true.
Proof.
  intros copy delete.
  destruct (registerExtensions_fresh_category (Body := unit) ∅
              (ExtensionRegistrar [] []) "actions" [copy; delete])
    as (r' & Hrun & Happ & _ & _ & _ & _ & Hreg & _);
    [reflexivity | reflexivity |].
  exists r'. split; [exact Hrun | split; [exact Happ | exact Hreg]].
Defined.

(** C2, at the specification's scenario: a second call with
  [{actions: [{key: "view"}]}] after [actions] has been registered. *)
Lemma registerExtensions_registered_category_witness :
  let view := {| typeof := TObject; key := Some "view"; depends := None; body := tt |} in
  let r := {| app := []; warnings := [];
              registeredCategories := {[ "actions" := true ]} |} in
  ∃ r',
    registerExtensions ∅ [("actions", [view])] r = Ok (r', app r') ∧
    app r' = [] ∧
    warnings r' = [warning "actions"].
Proof.
  intros view r.
  destruct (registerExtensions_registered_category (Body := unit) ∅ r
              "actions" [view])
    as (r' & Hrun & Happ & Hwarn & _); [reflexivity |].
  exists r'. split; [exact Hrun | split; [exact Happ | exact Hwarn]].
Defined.

(** C3 as first stated fails for an extension that declares the empty
  string as its key: at index 0 of [types] it is registered as [types[0]],
  not as [types[-0]]. *)
Lemma identify_declared_empty_key :
  let e := {| typeof := TObject; key := Some ""; depends := None; body := tt |} in
  key e = Some "" ∧
  identify "types" e 0 = "types[0]" ∧
  identify "types" e 0 ≠
    "types" +:+ "[" +:+ "" +:+ "-" +:+ number_to_string 0 +:+ "]".
Proof. repeat split. discriminate. Qed.

(** C3, amended, at concrete extensions. *)
Lemma identify_name_witness :
  identify "views" {| typeof := TObject; key := Some "plot"; depends := None; body := tt |} 3
    = "views[plot-3]" ∧
  identify "views" {| typeof := TFunction; key := None; depends := None; body := tt |} 3
    = "views[3]".
Proof.
  split.
  - apply (proj1 (identify_name "views"
             {| typeof := TObject; key := Some "plot"; depends := None; body := tt |}
             3) "plot"); [reflexivity | discriminate].
  - apply (proj1 (proj2 (identify_name "views"
             {| typeof := TFunction; key := None; depends := None; body := tt |}
             3))). by left.
Defined.

End ExtensionRegistrarFacts.

(** ** The copy policy *)

Module CopyPolicyFacts.
Import CopyPolicy.

(** The object the policy looks at: [context.selectedObject] when present,
  [context.domainObject] otherwise. *)
Lemma selectedObject_spec (c : context) (target : DomainObject) :
  selectedObject c = Some target ↔
    context_selectedObject c = Some target ∨
    (context_selectedObject c = None ∧ context_domainObject c = Some target).
Proof.
  unfold selectedObject. destruct (context_selectedObject c) as [o|].
  - split; [intros [= ->]; by left | intros [H | [H _]]; [done | discriminate]].
  - split; [intros H; by right | intros [H | [_ H]]; [discriminate | done]].
Qed.

Lemma allowCreation_spec (o : option DomainObject) :
  allowCreation o = true ↔
    ∃ target type, o = Some target ∧
      getCapability target "type" = Some type ∧
      hasFeature type "creation" = true.
Proof.
  unfold allowCreation. split.
  - destruct o as [target|]; [| discriminate].
    destruct (getCapability target "type") as [type|] eqn:Hty; [| discriminate].
    intros H. by exists target, type.
  - intros (target & type & -> & Hty & H). by rewrite Hty.
Qed.

(** C8.  An action whose metadata key is not "copy" is allowed.  A "copy"
  action is allowed exactly when the target, that is
  [context.selectedObject] or else [context.domainObject], exists and has a
  type capability with the "creation" feature. *)
Theorem allow_copy (action : Action) (c : context) :
  (key (getMetadata action) ≠ Some "copy" → allow action c = true) ∧
  (key (getMetadata action) = Some "copy" →
     (allow action c = true ↔
        ∃ target type,
          (context_selectedObject c = Some target ∨
           (context_selectedObject c = None ∧
            context_domainObject c = Some target)) ∧
          getCapability target "type" = Some type ∧
          hasFeature type "creation" = true)).
Proof.
  unfold allow. split.
  - intros Hkey. by rewrite bool_decide_eq_false_2.
  - intros Hkey. rewrite bool_decide_eq_true_2 by done.
    rewrite allowCreation_spec.
    split; intros (target & type & Ht & Hrest); exists target, type;
      (split; [by apply selectedObject_spec | done]).
Qed.

(** C8, at a "copy" action on a context whose only object is creatable. *)
Lemma allow_copy_witness :
  let creatable :=
    {| getCapability := λ name,
         if String.eqb name "type"
         then Some {| hasFeature := λ f, String.eqb f "creation" |}
         else None |} in
  allow {| getMetadata := {| key := Some "copy" |} |}
        {| context_selectedObject := None;
           context_domainObject := Some creatable |} = true.
Proof.
  intros creatable.
  apply (proj2 (allow_copy {| getMetadata := {| key := Some "copy" |} |}
                  {| context_selectedObject := None;
                     context_domainObject := Some creatable |})).
  - reflexivity.
  - exists creatable, {| hasFeature := λ f, String.eqb f "creation" |}.
    split; [by right | by split].
Defined.

End CopyPolicyFacts.

(** ** The table configuration *)

Module TableConfigurationFacts.
Import JS TableConfiguration TableExamples StringFacts.

Section Facts.
Context {DomainMetadata RangeMetadata Formatter TelemetryObject Datum V : Type}.
Local Abbreviation column := (column DomainMetadata RangeMetadata Formatter).
Local Abbreviation metadatum := (metadatum DomainMetadata RangeMetadata).
Local Abbreviation TableConfiguration :=
  (TableConfiguration DomainMetadata RangeMetadata Formatter V).
Local Abbreviation columnValue := (columnValue V).
Implicit Types (self : TableConfiguration) (metadata : list metadatum).
Implicit Types (columnConfig : gmap string bool).

(** *** buildColumns *)

Lemma foldl_domains self (ds : list DomainMetadata) :
  foldl (λ self d,
      addColumn (DomainColumn d (telemetryFormatter self)) None self) self ds =
  set_columns
    (columns self ++ ((λ d, DomainColumn d (telemetryFormatter self)) <$> ds))
    self.
Proof.
  revert self. induction ds as [|d ds IH]; intros self; simpl.
  - rewrite app_nil_r. by destruct self.
  - rewrite IH. simpl. by rewrite <- app_assoc.
Qed.

Lemma foldl_ranges self (rs : list RangeMetadata) :
  foldl (λ self r,
      addColumn (RangeColumn r (telemetryFormatter self)) None self) self rs =
  set_columns
    (columns self ++ ((λ r, RangeColumn r (telemetryFormatter self)) <$> rs))
    self.
Proof.
  revert self. induction rs as [|r rs IH]; intros self; simpl.
  - rewrite app_nil_r. by destruct self.
  - rewrite IH. simpl. by rewrite <- app_assoc.
Qed.

Lemma foldl_metadata self metadata :
  foldl (λ self m,
      let self :=
        foldl (λ self d,
            addColumn (DomainColumn d (telemetryFormatter self)) None self)
          self (or_else (domains m) []) in
      foldl (λ self r,
          addColumn (RangeColumn r (telemetryFormatter self)) None self)
        self (or_else (ranges m) []))
    self metadata =
  set_columns
    (columns self ++ (metadata ≫= columnsOfMetadatum (telemetryFormatter self)))
    self.
Proof.
  revert self. induction metadata as [|m metadata IH]; intros self; simpl.
  - rewrite app_nil_r. by destruct self.
  - rewrite IH, foldl_domains, foldl_ranges. simpl.
    unfold columnsOfMetadatum at 2. by rewrite <- !app_assoc.
Qed.

(** The columns [buildColumns] leaves, in closed form. *)
Lemma buildColumns_columns self metadata :
  columns (buildColumns (Some metadata) self) =
    match metadata ≫= columnsOfMetadatum (telemetryFormatter self) with
    | [] => []
    | c :: cs => NameColumn :: c :: cs
    end.
Proof.
  unfold buildColumns. rewrite foldl_metadata. simpl.
  by destruct (metadata ≫= columnsOfMetadatum (telemetryFormatter self)).
Qed.

(** C6, as amended.  [buildColumns] lists, for each metadatum in the order
  of the metadata, that metadatum's domain columns followed by its range
  columns, with the name column in front whenever there is at least one
  such column; a single metadatum with one domain and one range yields
  exactly the name, the domain and the range column, in this order. *)
Theorem buildColumns_order self metadata :
  columns (buildColumns (Some metadata) self) =
    match metadata ≫= columnsOfMetadatum (telemetryFormatter self) with
    | [] => []
    | c :: cs => NameColumn :: c :: cs
    end ∧
  ∀ (d : DomainMetadata) (r : RangeMetadata),
    columns (buildColumns (Some [{| domains := Some [d]; ranges := Some [r] |}])
               self) =
      [NameColumn;
       DomainColumn d (telemetryFormatter self);
       RangeColumn r (telemetryFormatter self)].
Proof. split; [apply buildColumns_columns | reflexivity]. Qed.

(** The name column is there only together with a domain or range column. *)
Lemma buildColumns_name_needs_entry self (metadata : option (list metadatum)) :
  NameColumn ∈ columns (buildColumns metadata self) →
  ∃ l m, metadata = Some l ∧ m ∈ l ∧
    columnsOfMetadatum (telemetryFormatter self) m ≠ [].
Proof.
  destruct metadata as [l|]; [| by intros ?%elem_of_nil].
  rewrite buildColumns_columns.
  destruct (l ≫= columnsOfMetadatum (telemetryFormatter self))
    as [|c cs] eqn:Hbody; [by intros ?%elem_of_nil |].
  intros _. assert (c ∈ l ≫= columnsOfMetadatum (telemetryFormatter self))
    as Hc by (rewrite Hbody; left).
  apply list_elem_of_bind in Hc as (m & Hcm & Hm).
  exists l, m. split; [done | split; [done |]].
  intros Hnil. rewrite Hnil in Hcm. by apply elem_of_nil in Hcm.
Qed.

Lemma buildColumns_nil self (metadata : option (list metadatum)) :
  (metadata = None ∨
   ∃ l, metadata = Some l ∧
     ∀ m, m ∈ l → or_else (domains m) [] = [] ∧ or_else (ranges m) [] = []) →
  columns (buildColumns metadata self) = [].
Proof.
  intros [-> | (l & -> & Hl)]; [done |].
  rewrite buildColumns_columns.
  assert (l ≫= columnsOfMetadatum (telemetryFormatter self) = []) as ->; [| done].
  induction l as [|m l IH]; [done |]. simpl.
  destruct (Hl m) as [Hd Hr]; [left |].
  unfold columnsOfMetadatum at 1. rewrite Hd, Hr. simpl.
  apply IH. intros m' Hm'. apply Hl. by right.
Qed.

(** C10.  Without metadata, or with metadata none of whose entries has a
  domain or a range, [buildColumns] leaves no column at all; and the name
  column is present only if some metadatum contributed a domain or range
  column. *)
Theorem buildColumns_no_entries self (metadata : option (list metadatum)) :
  ((metadata = None ∨
    ∃ l, metadata = Some l ∧
      ∀ m, m ∈ l → or_else (domains m) [] = [] ∧ or_else (ranges m) [] = []) →
   columns (buildColumns metadata self) = []) ∧
  (NameColumn ∈ columns (buildColumns metadata self) →
   ∃ l m, metadata = Some l ∧ m ∈ l ∧
     (or_else (domains m) [] ≠ [] ∨ or_else (ranges m) [] ≠ [])).
Proof.
  split; [apply buildColumns_nil |].
  intros (l & m & -> & Hm & Hne)%buildColumns_name_needs_entry.
  exists l, m. split; [done | split; [done |]].
  unfold columnsOfMetadatum in Hne.
  destruct (or_else (domains m) []) as [|d ds]; [| by left].
  destruct (or_else (ranges m) []) as [|r rs]; [done | by right].
Qed.

(** *** saveColumnConfiguration *)

Lemma shallow_equal_eq (obj1 obj2 : gmap string bool) : shallow_equal obj1 obj2 ↔ obj1 = obj2.
Proof.
  split; [| intros ->; by split].
  intros [Hdom Hval]. apply map_eq. intros key.
  destruct (decide (key ∈ dom obj1)) as [Hin | Hout]; [by apply Hval |].
  assert (key ∉ dom obj2) as Hout2 by (by rewrite <- Hdom).
  apply not_elem_of_dom in Hout, Hout2. by rewrite Hout, Hout2.
Qed.

(** The function [equal] decides shallow key-wise equality. *)
Lemma equal_spec (obj1 obj2 : gmap string bool) : equal obj1 obj2 = true ↔ shallow_equal obj1 obj2.
Proof.
  rewrite shallow_equal_eq. unfold equal.
  rewrite andb_true_iff, bool_decide_eq_true, forallb_forall.
  rewrite !length_fmap, !length_map_to_list.
  split.
  - intros [Hsize Hall].
    apply map_subseteq_size_eq; [| lia].
    apply map_subseteq_spec. intros key b Hkey.
    specialize (Hall key). rewrite bool_decide_eq_true in Hall.
    rewrite <- Hall; [done |].
    apply list_elem_of_In, list_elem_of_fmap. exists (key, b).
    split; [done | by apply elem_of_map_to_list].
  - intros ->. split; [done |]. intros key _. by apply bool_decide_eq_true.
Qed.

Lemma equal_false (obj1 obj2 : gmap string bool) : equal obj1 obj2 = false ↔ ¬ shallow_equal obj1 obj2.
Proof. rewrite <- equal_spec. by destruct (equal obj1 obj2). Qed.

(** C7.  [saveColumnConfiguration(c)] uses the mutation capability, stores
  [c] as the column configuration and writes it to
  [model.configuration.table.columns] when [c] differs from the stored
  configuration under shallow key-wise equality; when the two are equal,
  the table configuration, the domain object and its model are all left
  as they were.  Hence the capability is used if and only if the two
  differ. *)
Theorem saveColumnConfiguration_iff_changed self columnConfig :
  let self' := saveColumnConfiguration columnConfig self in
  (¬ shallow_equal (columnConfiguration self) columnConfig →
     capabilitiesUsed (domainObject self') =
       capabilitiesUsed (domainObject self) ++ ["mutation"] ∧
     columnConfiguration self' = columnConfig ∧
     (∃ c t, model_configuration (getModel (domainObject self')) = Some c ∧
        configuration_table c = Some t ∧
        table_columns t = Some columnConfig) ∧
     columns self' = columns self) ∧
  (shallow_equal (columnConfiguration self) columnConfig → self' = self) ∧
  (capabilitiesUsed (domainObject self') ≠ capabilitiesUsed (domainObject self)
     ↔ ¬ shallow_equal (columnConfiguration self) columnConfig).
Proof.
  intros self'. subst self'. unfold saveColumnConfiguration.
  destruct (equal (columnConfiguration self) columnConfig) eqn:Heq; simpl.
  - apply equal_spec in Heq. split; [done |]. split; [done |].
    split; [done | intros Hne; by destruct Hne].
  - apply equal_false in Heq. split.
    + intros _. repeat split. eexists _, _. repeat split.
    + split; [done |]. split; [done |]. intros _ Hsame.
      apply (f_equal length) in Hsame. rewrite length_app in Hsame.
      simpl in Hsame. lia.
Qed.

(** *** getRowValues *)

Context (getTitle : column → option string).
Context (getValue : column → TelemetryObject → Datum → option columnValue).
Context (telemetryObject : TelemetryObject) (datum : Datum).
Local Abbreviation step := (rowStep getTitle getValue telemetryObject datum).
Implicit Types (rowObject : gmap string (option columnValue)).

(** The guard of the assignment, spelled out. *)
Lemma replaceable_spec (entry : option (option columnValue)) :
  replaceable entry = true ↔
    entry = None ∨ entry = Some None ∨
    ∃ v, entry = Some (Some v) ∧ (text v = None ∨ text v = Some "").
Proof.
  unfold replaceable. destruct entry as [[v|]|].
  - destruct (text v) as [t|] eqn:Ht.
    + rewrite Nat.eqb_eq. split.
      * intros Hlen. right. right. exists v. split; [done |]. right.
        by destruct t.
      * intros [? | [? | (v' & [= <-] & [Hn | Hs])]]; try done.
        -- congruence.
        -- rewrite Ht in Hs. by injection Hs as ->.
    + split; [| done]. intros _. right. right. exists v. by split; [| left].
  - split; [| done]. intros _. right. by left.
  - split; [| done]. intros _. by left.
Qed.

(** One column changes at most the entry of its own title, and only one
  that passes the guard. *)
Lemma rowStep_changes rowObject (c : column) (i : nat) (title : string) :
  step rowObject c i !! title ≠ rowObject !! title →
  title = titleOrDefault getTitle c i ∧ replaceable (rowObject !! title) = true.
Proof.
  unfold rowStep.
  destruct (replaceable (rowObject !! titleOrDefault getTitle c i)) eqn:Hrep;
    [| done].
  destruct (decide (titleOrDefault getTitle c i = title)) as [<- | Hne].
  - done.
  - by rewrite lookup_insert_ne.
Qed.

(** An entry with a non-empty text survives one column. *)
Lemma rowStep_keeps rowObject (c : column) (i : nat) (title : string)
    (v : columnValue) (t : string) :
  rowObject !! title = Some (Some v) → text v = Some t → t ≠ "" →
  step rowObject c i !! title = Some (Some v).
Proof.
  intros Hentry Htext Hne. unfold rowStep.
  destruct (replaceable (rowObject !! titleOrDefault getTitle c i)) eqn:Hrep;
    [| done].
  destruct (decide (titleOrDefault getTitle c i = title)) as [Heq | Hneq].
  - rewrite Heq, Hentry in Hrep. simpl in Hrep. rewrite Htext in Hrep.
    destruct t; [done | discriminate].
  - by rewrite lookup_insert_ne.
Qed.

(** A key present after one column was present before or is its title. *)
Lemma rowStep_keys rowObject (c : column) (i : nat) (title : string) :
  is_Some (step rowObject c i !! title) →
  is_Some (rowObject !! title) ∨ title = titleOrDefault getTitle c i.
Proof.
  unfold rowStep.
  destruct (replaceable (rowObject !! titleOrDefault getTitle c i));
    [| by left].
  destruct (decide (titleOrDefault getTitle c i = title)) as [Heq | Hneq].
  - by right.
  - rewrite lookup_insert_ne by done. by left.
Qed.

Lemma reduce_from_keeps (cols : list column) (i : nat) rowObject
    (title : string) (v : columnValue) (t : string) :
  rowObject !! title = Some (Some v) → text v = Some t → t ≠ "" →
  reduce_from step cols i rowObject !! title = Some (Some v).
Proof.
  revert i rowObject.
  induction cols as [|c cols IH]; intros i rowObject Hentry Htext Hne; [done |].
  simpl. apply IH; [| done | done]. by eapply rowStep_keeps.
Qed.

Lemma reduce_from_app {A B} (f : B → A → nat → B) (l1 l2 : list A) (i : nat)
    (acc : B) :
  reduce_from f (l1 ++ l2) i acc =
    reduce_from f l2 (i + length l1) (reduce_from f l1 i acc).
Proof.
  revert i acc. induction l1 as [|a l1 IH]; intros i acc; simpl.
  - by rewrite Nat.add_0_r.
  - rewrite IH. f_equal. lia.
Qed.

(** Every key of the reduction is a key of the start or a header. *)
Lemma reduce_from_keys (cols : list column) (i : nat) rowObject (title : string) :
  is_Some (reduce_from step cols i rowObject !! title) →
  is_Some (rowObject !! title) ∨
  title ∈ imap (λ j c, titleOrDefault getTitle c (i + j)) cols.
Proof.
  revert i rowObject.
  induction cols as [|c cols IH]; intros i rowObject Hsome; [by left |].
  simpl in Hsome. apply IH in Hsome as [Hsome | Hin].
  - apply rowStep_keys in Hsome as [Hsome | ->]; [by left |].
    right. rewrite imap_cons, Nat.add_0_r. left.
  - right. rewrite imap_cons. right.
    erewrite imap_ext; [exact Hin |]. intros j x _. simpl. f_equal. lia.
Qed.

(** C9.  [getRowValues] returns an object whose keys are column titles
  (headers).  Processing a column changes an entry only if that entry is
  the column's own title and the entry so far is undefined, or has an
  undefined or empty text; an entry whose text is defined and non-empty
  when recorded, after any prefix of the columns, is the entry of the
  final row object. *)
Theorem getRowValues_keeps_text self :
  (∀ title, is_Some (getRowValues getTitle getValue telemetryObject datum self
                       !! title) →
     title ∈ getHeaders getTitle self) ∧
  (∀ rowObject (c : column) (i : nat) (title : string),
     step rowObject c i !! title ≠ rowObject !! title →
     title = titleOrDefault getTitle c i ∧
     (rowObject !! title = None ∨ rowObject !! title = Some None ∨
      ∃ v, rowObject !! title = Some (Some v) ∧
        (text v = None ∨ text v = Some ""))) ∧
  (∀ (earlier later : list column) (title : string) (v : columnValue)
     (t : string),
     columns self = earlier ++ later →
     reduce_from step earlier 0 ∅ !! title = Some (Some v) →
     text v = Some t → t ≠ "" →
     getRowValues getTitle getValue telemetryObject datum self !! title
       = Some (Some v)).
Proof.
  split; [| split].
  - intros title Hsome. unfold getRowValues in Hsome.
    apply reduce_from_keys in Hsome as [Hsome | Hin].
    + rewrite lookup_empty in Hsome. by destruct Hsome.
    + exact Hin.
  - intros rowObject c i title Hchanged.
    apply rowStep_changes in Hchanged as [-> Hrep].
    split; [done |]. by apply replaceable_spec.
  - intros earlier later title v t Hcols Hentry Htext Hne.
    unfold getRowValues. rewrite Hcols, reduce_from_app.
    by eapply reduce_from_keeps.
Qed.

End Facts.

(** C6 as first stated fails for metadata with two entries: the range
  column of the first entry comes before the domain column of the second,
  so the columns are not "all domains, then all ranges". *)
Lemma buildColumns_interleaves :
  let m1 := {| domains := Some ["utc"]; ranges := Some ["sin"] |} in
  let m2 := {| domains := Some ["local"]; ranges := Some ["cos"] |} in
  columns (buildColumns (Some [m1; m2]) plainTable) =
    [NameColumn; DomainColumn "utc" tt; RangeColumn "sin" tt;
     DomainColumn "local" tt; RangeColumn "cos" tt] ∧
  domains_then_ranges tt [m1; m2] =
    [NameColumn; DomainColumn "utc" tt; DomainColumn "local" tt;
     RangeColumn "sin" tt; RangeColumn "cos" tt] ∧
  columns (buildColumns (Some [m1; m2]) plainTable) ≠
    domains_then_ranges tt [m1; m2].
Proof. split; [reflexivity | split; [reflexivity | discriminate]]. Qed.

(** C6, amended, at the two-entry metadata above. *)
Lemma buildColumns_order_witness :
  let m1 := {| domains := Some ["utc"]; ranges := Some ["sin"] |} in
  let m2 := {| domains := Some ["local"]; ranges := Some ["cos"] |} in
  columns (buildColumns (Some [m1; m2]) plainTable) =
    [NameColumn; DomainColumn "utc" tt; RangeColumn "sin" tt;
     DomainColumn "local" tt; RangeColumn "cos" tt].
Proof.
  exact (proj1 (buildColumns_order plainTable
    [{| domains := Some ["utc"]; ranges := Some ["sin"] |};
     {| domains := Some ["local"]; ranges := Some ["cos"] |}])).
Defined.

(** C10, at absent metadata and at metadata whose only entry has no
  domains and an empty list of ranges. *)
Lemma buildColumns_no_entries_witness :
  columns (buildColumns None plainTable) = [] ∧
  columns (buildColumns
             (Some [{| domains := None; ranges := Some [] |}]) plainTable) = [].
Proof.
  split.
  - apply (proj1 (buildColumns_no_entries plainTable None)). by left.
  - apply (proj1 (buildColumns_no_entries plainTable
                    (Some [{| domains := None; ranges := Some [] |}]))).
    right. eexists. split; [reflexivity |].
    intros m Hm. apply list_elem_of_singleton in Hm as ->. by split.
Defined.

(** C7, at a table with nothing stored, saving a one-column
  configuration. *)
Lemma saveColumnConfiguration_iff_changed_witness :
  let c : gmap string bool := {[ "Time" := true ]} in
  let self' := saveColumnConfiguration c plainTable in
  capabilitiesUsed (domainObject self') = ["mutation"] ∧
  columnConfiguration self' = c.
Proof.
  intros c self'.
  destruct (proj1 (saveColumnConfiguration_iff_changed plainTable c))
    as (Hused & Hstored & _).
  - intros Hsame%shallow_equal_eq.
    apply (f_equal (lookup "Time")) in Hsame. discriminate Hsame.
  - split; [exact Hused | exact Hstored].
Defined.

(** C9, at two columns that share the title [Value]: the text recorded
  for the first one stays. *)
Lemma getRowValues_keeps_text_witness :
  let self := set_columns [DomainColumn "12:00" tt; RangeColumn "7" tt] plainTable in
  getRowValues kindTitle nameValue tt tt self !! "Value" =
    Some (Some {| text := Some "12:00"; value_other := ∅ |}).
Proof.
  intros self.
  apply (proj2 (proj2 (getRowValues_keeps_text kindTitle nameValue tt tt self))
           [DomainColumn "12:00" tt] [RangeColumn "7" tt] "Value" _ "12:00").
  - reflexivity.
  - reflexivity.
  - reflexivity.
  - discriminate.
Defined.

End TableConfigurationFacts.

(** * Further properties *)

(** ** Registration names *)

Module RegistrationNames.
Import Stdlib.Strings.Ascii.
Import JS ExtensionRegistrar StringFacts.

Local Abbreviation dash_free s :=
  (∀ s1 s2 : string, s ≠ s1 +:+ String "-" s2).

Lemma string_app_cancel_r (s1 s2 t : string) :
  s1 +:+ t = s2 +:+ t → s1 = s2.
Proof.
  revert s2. induction s1 as [|a s1 IH]; intros s2 Heq.
  - apply (f_equal String.length) in Heq.
    rewrite !string_length_app in Heq. simpl in Heq.
    destruct s2; [done | simpl in Heq; lia].
  - destruct s2 as [|b s2].
    + apply (f_equal String.length) in Heq.
      change (String a s1 +:+ t) with (String a (s1 +:+ t)) in Heq.
      simpl in Heq. rewrite !string_length_app in Heq. simpl in Heq. lia.
    + change (String a (s1 +:+ t) = String b (s2 +:+ t)) in Heq.
      injection Heq as -> Heq. f_equal. by apply IH.
Qed.

Lemma dash_free_cons (c : Ascii.ascii) (s : string) :
  String c "" ≠ "-" → dash_free s → dash_free (String c s).
Proof.
  intros Hc Hs s1 s2 Heq. destruct s1 as [|a s1].
  - change (String c s = String "-" s2) in Heq. injection Heq as -> _.
    by destruct Hc.
  - change (String c s = String a (s1 +:+ String "-" s2)) in Heq.
    injection Heq as _ Heq. by apply (Hs s1 s2).
Qed.

Lemma dash_free_empty : dash_free "".
Proof. intros [|a s1] s2 Heq; discriminate Heq. Qed.

Lemma pretty_N_char_not_dash (x : N) : String (pretty_N_char x) "" ≠ "-".
Proof. unfold pretty_N_char. by repeat case_match. Qed.

Lemma pretty_N_go_dash_free (x : N) (s : string) :
  dash_free s → dash_free (pretty_N_go x s).
Proof.
  revert s. induction (N.lt_wf_0 x) as [x _ IH]; intros s Hs.
  destruct (decide (x = 0)%N) as [-> | Hx].
  - by rewrite pretty_N_go_0.
  - rewrite pretty_N_go_step by lia.
    apply IH; [apply N.div_lt; lia |].
    apply dash_free_cons; [apply pretty_N_char_not_dash | done].
Qed.

(** A decimal numeral contains no dash. *)
Lemma number_to_string_dash_free (n : nat) : dash_free (number_to_string n).
Proof.
  unfold number_to_string, pretty, pretty_nat, pretty, pretty_N.
  case_decide as Hn.
  - apply dash_free_cons; [done | apply dash_free_empty].
  - apply pretty_N_go_dash_free, dash_free_empty.
Qed.

(** What follows the last dash determines a dash-free suffix. *)
Lemma dash_suffix_inj (k1 k2 d1 d2 : string) :
  dash_free d1 → dash_free d2 →
  k1 +:+ String "-" d1 = k2 +:+ String "-" d2 → d1 = d2.
Proof.
  intros H1 H2. revert k2.
  induction k1 as [|a k1 IH]; intros [|b k2] Heq.
  - by injection Heq.
  - change (String "-" d1 = String b (k2 +:+ String "-" d2)) in Heq.
    injection Heq as _ Heq. by destruct (H1 k2 d2).
  - change (String a (k1 +:+ String "-" d1) = String "-" d2) in Heq.
    injection Heq as _ Heq. by destruct (H2 k1 d1).
  - change (String a (k1 +:+ String "-" d1) = String b (k2 +:+ String "-" d2))
      in Heq.
    injection Heq as _ Heq. by apply (IH k2).
Qed.

Section Names.
Context {Body : Type}.
Implicit Types (e : extension Body) (extensions : list (extension Body)).

(** Two extensions of one category that get the same name sit at the same
  index. *)
Lemma identify_inj_index (category : string) e1 e2 (i j : nat) :
  identify category e1 i = identify category e2 j → i = j.
Proof.
  unfold identify. intros Heq.
  apply (inj (String.append category)) in Heq.
  match type of Heq with
  | "[" +:+ ?n1 +:+ "]" = "[" +:+ ?n2 +:+ "]" =>
      change (String "[" (n1 +:+ "]") = String "[" (n2 +:+ "]")) in Heq
  end.
  injection Heq as Heq. apply string_app_cancel_r in Heq.
  pose proof (number_to_string_dash_free i) as Hi.
  pose proof (number_to_string_dash_free j) as Hj.
  destruct (truthy_string (key e1)), (truthy_string (key e2)).
  - apply dash_suffix_inj in Heq; [| done | done].
    by apply (inj (pretty (A := nat))) in Heq.
  - by destruct (Hj (or_else (key e1) "") (number_to_string i)).
  - by destruct (Hi (or_else (key e2) "") (number_to_string j)).
  - by apply (inj (pretty (A := nat))) in Heq.
Qed.

(** X1.  The names under which the extensions of one category are
  registered, followed by the name of the category's aggregate, are
  pairwise distinct, whatever keys the extensions declare. *)
Theorem registration_names_distinct (category : string) extensions :
  NoDup (imap (λ i e, identify category e i) extensions ++
         [category +:+ EXTENSION_SUFFIX]).
Proof.
  apply NoDup_app. split; [| split].
  - apply NoDup_alt. intros i j name Hi Hj.
    rewrite list_lookup_imap in Hi, Hj.
    destruct (extensions !! i) as [e1|] eqn:He1; [| done].
    destruct (extensions !! j) as [e2|] eqn:He2; [| done].
    simpl in Hi, Hj. injection Hi as Hi. injection Hj as Hj.
    apply (identify_inj_index category e1 e2). congruence.
  - intros name Hin Hagg. apply list_elem_of_singleton in Hagg as ->.
    apply list_elem_of_lookup in Hin as [i Hi].
    rewrite list_lookup_imap in Hi.
    destruct (extensions !! i) as [e|]; [| done].
    simpl in Hi. injection Hi as Hi.
    by apply ExtensionRegistrarFacts.identify_not_aggregate in Hi.
  - apply NoDup_singleton.
Qed.

End Names.
End RegistrationNames.

(** ** Groups of categories *)

Module RegistrarGroups.
Import JS ExtensionRegistrar StringFacts ExtensionRegistrarFacts.

Section Groups.
Context {Body : Type}.
Implicit Types (e : extension Body) (r : registrar Body).
Implicit Types (category : string) (extensions : list (extension Body)).
Implicit Types (customRegistrars : gmap string (custom_registrar Body)).
Implicit Types (g : list (string * list (extension Body))).

(** What the generic branch registers for one category. *)
Local Abbreviation registrations category extensions :=
  (imap (λ i e, app_factory (identify category e i)
                  (makeServiceArgument category e)) extensions ++
   [app_factory (category +:+ EXTENSION_SUFFIX)
      ((Dep <$> imap (λ i e, identify category e i) extensions) ++ [Fn echo])]).

(** Whatever the branch, a category is registered once its step returns. *)
Lemma registerExtensionsForCategory_registers customRegistrars category
    extensions r r' (v : option bool) :
  registerExtensionsForCategory customRegistrars category extensions r
    = Ok (r', v) →
  is_registered r' category = true.
Proof.
  unfold registerExtensionsForCategory.
  destruct (is_registered r category) eqn:Hreg.
  - intros [= <- _]. exact Hreg.
  - match goal with |- bind ?m _ = _ → _ => destruct m as [calls | err] end;
      simpl; [| discriminate].
    intros [= <- _]. unfold is_registered. simpl. by rewrite lookup_insert_eq.
Qed.

(** Without a custom registrar one step never raises and only appends. *)
Lemma registerExtensionsForCategory_generic customRegistrars category
    extensions r :
  customRegistrars !! category = None →
  ∃ r' v,
    registerExtensionsForCategory customRegistrars category extensions r
      = Ok (r', v) ∧
    app r `prefix_of` app r' ∧ warnings r `prefix_of` warnings r'.
Proof.
  intros Hcustom. destruct (is_registered r category) eqn:Hreg.
  - rewrite registerExtensionsForCategory_registered by done.
    eexists _, _. split; [done |]. simpl.
    split; [done | by apply prefix_app_r].
  - rewrite registerExtensionsForCategory_fresh by done.
    eexists _, _. split; [done |]. simpl.
    split; [by apply prefix_app_r | done].
Qed.

(** X2.  When none of the group's categories has a custom registrar,
  [registerExtensions] returns normally for every group and every state
  of the registrar, and it only appends: the registrations and the
  warnings present before the call are a prefix of those present after
  it. *)
Theorem registerExtensions_generic_never_raises customRegistrars g r :
  (∀ category, category ∈ g.*1 → customRegistrars !! category = None) →
  ∃ r',
    registerExtensions customRegistrars g r = Ok (r', app r') ∧
    app r `prefix_of` app r' ∧
    warnings r `prefix_of` warnings r'.
Proof.
  intros Hcustom.
  assert (∃ r', registerCategories customRegistrars g r = Ok r' ∧
            app r `prefix_of` app r' ∧ warnings r `prefix_of` warnings r')
    as (r' & Hrun & Happ & Hwarn).
  { revert r. induction g as [|[category extensions] g IH]; intros r.
    - exists r. by split.
    - destruct (registerExtensionsForCategory_generic customRegistrars
                  category extensions r) as (r1 & v & Hstep & Happ1 & Hwarn1).
      { apply Hcustom. simpl. left. }
      destruct (IH (λ c Hc, Hcustom c (list_elem_of_further _ _ _ Hc)) r1)
        as (r' & Hrun & Happ & Hwarn).
      exists r'. simpl. rewrite Hstep. simpl. split; [done |].
      split; by etrans. }
  exists r'. unfold registerExtensions, registerExtensionGroup.
  rewrite Hrun. simpl. by split.
Qed.

Lemma registerCategories_registers customRegistrars g r r' :
  registerCategories customRegistrars g r = Ok r' →
  ∀ category, category ∈ g.*1 → is_registered r' category = true.
Proof.
  revert r. induction g as [|[category' extensions] g IH]; intros r Hrun
    category Hin.
  - by apply elem_of_nil in Hin.
  - simpl in Hrun.
    destruct (registerExtensionsForCategory customRegistrars category'
                extensions r) as [[r1 v] | err] eqn:Hstep; simpl in Hrun;
      [| discriminate].
    simpl in Hin. apply elem_of_cons in Hin as [-> | Hin].
    + eapply registerCategories_keeps_registered; [| exact Hrun].
      by eapply registerExtensionsForCategory_registers.
    + by eapply IH.
Qed.


(** A group all of whose categories are registered only logs. *)
Lemma registerCategories_all_registered customRegistrars g r :
  (∀ category, category ∈ g.*1 → is_registered r category = true) →
  registerCategories customRegistrars g r =
    Ok {| app := app r;
          warnings := warnings r ++ (warning <$> g.*1);
          registeredCategories := registeredCategories r |}.
Proof.
  revert r. induction g as [|[category extensions] g IH]; intros r Hall; simpl.
  - rewrite app_nil_r. by destruct r.
  - rewrite registerExtensionsForCategory_registered
      by (apply Hall; simpl; left).
    simpl. rewrite IH.
    + simpl. by rewrite <- app_assoc.
    + intros c Hc. unfold is_registered. simpl.
      apply (Hall c). simpl. by right.
Qed.

(** X4.  Registering a group a second time, right after it has been
  registered, changes no registration and no registered category: it logs
  one warning per entry of the group, in the order of the group, and
  returns normally, with or without custom registrars. *)
Theorem registerExtensions_twice customRegistrars g r r1
    (calls : list (app_call Body)) :
  registerExtensions customRegistrars g r = Ok (r1, calls) →
  registerExtensions customRegistrars g r1 =
    Ok ({| app := app r1;
           warnings := warnings r1 ++ (warning <$> g.*1);
           registeredCategories := registeredCategories r1 |},
        app r1).
Proof.
  unfold registerExtensions, registerExtensionGroup.
  destruct (registerCategories customRegistrars g r) as [r2 | err] eqn:Hrun;
    simpl; [| discriminate].
  intros [= <- _].
  rewrite registerCategories_all_registered; [done |].
  by eapply registerCategories_registers.
Qed.

(** Registering one category leaves the others as they were. *)
Lemma is_registered_insert_ne r category category' (calls : list (app_call Body))
    (log : list string) :
  category ≠ category' →
  is_registered
    {| app := calls; warnings := log;
       registeredCategories := <[category := true]> (registeredCategories r) |}
    category' = is_registered r category'.
Proof.
  intros Hne. unfold is_registered. simpl. by rewrite lookup_insert_ne.
Qed.

(** X5.  For a group whose categories are pairwise distinct, without
  custom registrars, and all read as not registered (no own flag, no name
  inherited from [Object.prototype]), [registerExtensions] appends,
  category after category in the order of the group, the individual
  factories of the category followed by its aggregate; it logs nothing,
  and the number of new registrations is the number of extensions plus
  the number of categories. *)
Theorem registerExtensions_fresh_group customRegistrars g r :
  NoDup g.*1 →
  (∀ category, category ∈ g.*1 →
     is_registered r category = false ∧ customRegistrars !! category = None) →
  ∃ r',
    registerExtensions customRegistrars g r = Ok (r', app r') ∧
    app r' = app r ++ (g ≫= λ ce, registrations ce.1 ce.2) ∧
    length (app r') =
      length (app r) + sum_list (length <$> g.*2) + length g ∧
    warnings r' = warnings r.
Proof.
  intros Hnodup Hfresh.
  assert (∃ r', registerCategories customRegistrars g r = Ok r' ∧
            app r' = app r ++ (g ≫= λ ce, registrations ce.1 ce.2) ∧
            warnings r' = warnings r) as (r' & Hrun & Happ & Hwarn).
  { revert r Hfresh.
    induction g as [|[category extensions] g IH]; intros r Hfresh.
    - exists r. simpl. by rewrite app_nil_r.
    - simpl in Hnodup. apply NoDup_cons in Hnodup as [Hnotin Hnodup].
      destruct (Hfresh category) as [Hreg Hcustom]; [simpl; left |].
      simpl. rewrite registerExtensionsForCategory_fresh by done. simpl.
      destruct (IH Hnodup
        {| app := app r ++ registrations category extensions;
           warnings := warnings r;
           registeredCategories := <[category := true]> (registeredCategories r) |})
        as (r' & Hrun & Happ & Hwarn).
      { intros c Hc. destruct (Hfresh c) as [Hc1 Hc2]; [simpl; by right |].
        split; [| done]. rewrite is_registered_insert_ne; [done |].
        intros ->. by apply Hnotin. }
      exists r'. split; [exact Hrun |]. split; [| exact Hwarn].
      rewrite Happ. simpl. by rewrite <- !app_assoc. }
  exists r'. unfold registerExtensions, registerExtensionGroup.
  rewrite Hrun. simpl. split; [done |]. split; [done |]. split; [| done].
  rewrite Happ, length_app.
  assert (length (g ≫= λ ce, registrations ce.1 ce.2) =
            sum_list (length <$> g.*2) + length g) as ->; [| lia].
  clear. induction g as [|[category extensions] g IH]; [done |].
  rewrite bind_cons, !fmap_cons, length_app, IH. simpl.
  rewrite length_app, length_imap. simpl. lia.
Qed.

(** X6.  After a category without custom registrar, whose flag reads
  falsy (no own flag, no name inherited from [Object.prototype]), has been
  registered, the factory registered for each of its extensions lists the
  extension's declared dependencies, in order, followed by one function.
  For a plain object that function returns the extension itself whatever
  arguments it is given; for a constructor function it raises a
  [TypeError] whatever arguments it is given. *)
Theorem registered_factory_behaviour customRegistrars r category extensions
    (i : nat) e :
  is_registered r category = false →
  customRegistrars !! category = None →
  extensions !! i = Some e →
  ∃ r' f,
    registerExtensions customRegistrars [(category, extensions)] r
      = Ok (r', app r') ∧
    app_factory (identify category e i)
      ((Dep <$> or_else (depends e) []) ++ [Fn f]) ∈ app r' ∧
    (typeof e = TObject → ∀ arguments, call f arguments = Ok (RExtension e)) ∧
    (typeof e = TFunction →
       ∀ arguments,
         call f arguments =
           Throw (TypeError "arguments.slice is not a function")).
Proof.
  intros Hreg Hcustom He.
  exists {| app := app r ++ registrations category extensions;
            warnings := warnings r;
            registeredCategories := <[category := true]> (registeredCategories r) |},
    (match typeof e with
     | TFunction => PartialConstructorOf e
     | TObject => staticFunction e
     end).
  split.
  { unfold registerExtensions, registerExtensionGroup. simpl.
    rewrite (registerExtensionsForCategory_fresh _ _ _ _ Hreg Hcustom).
    simpl. reflexivity. }
  simpl. split; [| split].
  - apply elem_of_app. right. apply elem_of_app. left.
    apply list_elem_of_lookup. exists i.
    rewrite list_lookup_imap, He. reflexivity.
  - by intros ->.
  - by intros ->.
Qed.

(** X7.  A custom registrar that raises on the first extension of a
  category that reads as not registered (no own flag, no name inherited
  from [Object.prototype]) makes [registerExtensions] raise the same
  error; the categories that follow in the group are not handled. *)
Theorem registerExtensions_custom_raises customRegistrars r category
    (custom : custom_registrar Body) e extensions g (err : error) :
  is_registered r category = false →
  customRegistrars !! category = Some custom →
  custom e 0 (app r) = Throw err →
  registerExtensions customRegistrars ((category, e :: extensions) :: g) r
    = Throw err.
Proof.
  intros Hreg Hcustom Hraise.
  unfold registerExtensions, registerExtensionGroup. simpl.
  unfold registerExtensionsForCategory.
  unfold custom_registrar in *. rewrite Hreg, Hcustom.
  unfold forEach. simpl. by rewrite Hraise.
Qed.

End Groups.

(** X2, at a group that names the category [views] twice. *)
Lemma registerExtensions_generic_never_raises_witness :
  let view := {| typeof := TObject; key := Some "plot"; depends := None; body := tt |} in
  ∃ r',
    registerExtensions ∅ [("views", [view]); ("views", [])] (ExtensionRegistrar [] [])
      = Ok (r', app r').
Proof.
  intros view.
  destruct (registerExtensions_generic_never_raises (Body := unit) ∅
              [("views", [view]); ("views", [])] (ExtensionRegistrar [] []))
    as (r' & Hrun & _); [intros c _; apply lookup_empty |].
  by exists r'.
Defined.


(** X4, at the specification's scenario registered twice. *)
Lemma registerExtensions_twice_witness :
  let r1 : registrar unit :=
    {| app := [app_factory "actions[]" [Fn echo]]; warnings := [];
       registeredCategories := {[ "actions" := true ]} |} in
  registerExtensions (Body := unit) ∅ [("actions", [])] r1 =
    Ok ({| app := app r1; warnings := [warning "actions"];
           registeredCategories := registeredCategories r1 |}, app r1).
Proof.
  intros r1.
  apply (registerExtensions_twice (Body := unit) ∅ [("actions", [])]
           (ExtensionRegistrar [] []) r1 (app r1)).
  reflexivity.
Defined.

(** X5, at a group of two categories. *)
Lemma registerExtensions_fresh_group_witness :
  let plot := {| typeof := TObject; key := Some "plot"; depends := None; body := tt |} in
  ∃ r',
    registerExtensions ∅ [("views", [plot]); ("types", [])]
        (ExtensionRegistrar [] [])
      = Ok (r', app r') ∧
    app r' =
      [app_factory "views[plot-0]" [Fn (staticFunction plot)];
       app_factory "views[]" [Dep "views[plot-0]"; Fn echo];
       app_factory "types[]" [Fn echo]].
Proof.
  intros plot.
  destruct (registerExtensions_fresh_group (Body := unit) ∅
              [("views", [plot]); ("types", [])] (ExtensionRegistrar [] []))
    as (r' & Hrun & Happ & _).
  - simpl. apply NoDup_cons. split.
    + intros Hin. apply list_elem_of_singleton in Hin. discriminate Hin.
    + apply NoDup_singleton.
  - intros c Hc. simpl in Hc.
    apply elem_of_cons in Hc as [-> | Hc];
      [| apply list_elem_of_singleton in Hc as ->];
      (split; [reflexivity | apply lookup_empty]).
  - exists r'. by split.
Defined.

(** X6, at an extension that is a plain object with two dependencies. *)
Lemma registered_factory_behaviour_witness :
  let k := {| typeof := TObject; key := Some "k"; depends := Some ["a"; "b"];
              body := tt |} in
  ∃ r' f,
    registerExtensions ∅ [("types", [k])] (ExtensionRegistrar [] [])
      = Ok (r', app r') ∧
    app_factory "types[k-0]" [Dep "a"; Dep "b"; Fn f] ∈ app r' ∧
    ∀ arguments, call f arguments = Ok (RExtension k).
Proof.
  intros k.
  destruct (registered_factory_behaviour (Body := unit) ∅
              (ExtensionRegistrar [] []) "types" [k] 0 k)
    as (r' & f & Hrun & Hin & Hobj & _);
    [reflexivity | reflexivity | reflexivity |].
  exists r', f. split; [exact Hrun | split; [exact Hin | by apply Hobj]].
Defined.

(** X7, at a custom registrar for [directives] that always raises. *)
Lemma registerExtensions_custom_raises_witness :
  let failing : custom_registrar unit :=
    λ _ _ _, Throw (TypeError "directive is not a function") in
  let d := {| typeof := TFunction; key := None; depends := None; body := tt |} in
  registerExtensions {[ "directives" := failing ]}
      [("directives", [d]); ("types", [])] (ExtensionRegistrar [] [])
    = Throw (TypeError "directive is not a function").
Proof.
  intros failing d.
  apply (registerExtensions_custom_raises (Body := unit)
           {[ "directives" := failing ]} (ExtensionRegistrar [] [])
           "directives" failing d [] [("types", [])]);
    reflexivity.
Defined.

End RegistrarGroups.

(** ** Columns, headers and the persisted configuration *)

Module TableColumns.
Import JS TableConfiguration TableExamples StringFacts TableConfigurationFacts.

Section Columns.
Context {DomainMetadata RangeMetadata Formatter TelemetryObject Datum V : Type}.
Local Abbreviation column := (column DomainMetadata RangeMetadata Formatter).
Local Abbreviation metadatum := (metadatum DomainMetadata RangeMetadata).
Local Abbreviation TableConfiguration :=
  (TableConfiguration DomainMetadata RangeMetadata Formatter V).
Implicit Types (self : TableConfiguration) (c : column).
Implicit Types (metadata : option (list metadatum)).

(** X8.  [addColumn] always adds exactly one column.  Without an index the
  column goes to the end.  With an index within the list the column ends
  up at that index and the columns already there keep their order; with
  an index beyond the end the column goes to the end. *)
Theorem addColumn_position self c (index : option nat) :
  length (columns (addColumn c index self)) = S (length (columns self)) ∧
  (index = None → columns (addColumn c index self) = columns self ++ [c]) ∧
  (∀ i, index = Some i → i ≤ length (columns self) →
     columns (addColumn c index self) !! i = Some c ∧
     delete i (columns (addColumn c index self)) = columns self) ∧
  (∀ i, index = Some i → length (columns self) ≤ i →
     columns (addColumn c index self) = columns self ++ [c]).
Proof.
  split; [| split; [| split]].
  - destruct index as [i|]; simpl.
    + rewrite length_app. simpl. rewrite length_take, length_drop. lia.
    + rewrite length_app. simpl. lia.
  - by intros ->.
  - intros i -> Hi. simpl.
    assert (length (take i (columns self)) = i) as Hlen
      by (rewrite length_take; lia).
    split.
    + rewrite lookup_app_r by lia. by rewrite Hlen, Nat.sub_diag.
    + rewrite <- Hlen at 1. rewrite delete_middle. apply take_drop.
  - intros i -> Hi. simpl.
    by rewrite take_ge, drop_ge by done.
Qed.

(** [buildColumns] in closed form: only the columns change. *)
Lemma buildColumns_closed self (l : list metadatum) :
  buildColumns (Some l) self =
    set_columns
      match l ≫= columnsOfMetadatum (telemetryFormatter self) with
      | [] => []
      | c :: cs => NameColumn :: c :: cs
      end self.
Proof.
  unfold buildColumns. rewrite foldl_metadata. simpl.
  by destruct (l ≫= columnsOfMetadatum (telemetryFormatter self)).
Qed.

(** X9.  [buildColumns] starts from scratch: the columns it leaves do not
  depend on the columns the table had, so building twice is building
  once with the later metadata; the domain object, the stored column
  configuration and the formatter are left as they were. *)
Theorem buildColumns_rebuilds self metadata metadata' (cols : list column) :
  buildColumns metadata (set_columns cols self) = buildColumns metadata self ∧
  buildColumns metadata (buildColumns metadata' self)
    = buildColumns metadata self ∧
  domainObject (buildColumns metadata self) = domainObject self ∧
  columnConfiguration (buildColumns metadata self) = columnConfiguration self ∧
  telemetryFormatter (buildColumns metadata self) = telemetryFormatter self.
Proof.
  assert (∀ cs, buildColumns metadata (set_columns cs self)
                  = buildColumns metadata self) as Hreset.
  { intros cs. destruct metadata as [l|]; [| done].
    by rewrite !buildColumns_closed. }
  split; [apply Hreset |]. split.
  - destruct metadata' as [l'|].
    + rewrite buildColumns_closed. apply Hreset.
    + apply (Hreset []).
  - destruct metadata as [l|]; [| done].
    by rewrite buildColumns_closed.
Qed.

(** X10.  After [buildColumns] the name column occurs at index 0 and
  nowhere else, and it is there as soon as there is any column; the
  number of columns is one more than the number of domain and range
  entries of the metadata, or zero when there is none. *)
Theorem buildColumns_name_first self (l : list metadatum) :
  let cols := columns (buildColumns (Some l) self) in
  let entries :=
    sum_list ((λ m, length (or_else (domains m) []) +
                    length (or_else (ranges m) [])) <$> l) in
  (cols ≠ [] → cols !! 0 = Some NameColumn) ∧
  (∀ i, cols !! S i ≠ Some NameColumn) ∧
  length cols = (if decide (entries = 0) then 0 else S entries).
Proof.
  intros cols entries. subst cols. rewrite buildColumns_columns.
  assert (NameColumn ∉ l ≫= columnsOfMetadatum (telemetryFormatter self))
    as Hnoname.
  { intros (m & Hin & _)%list_elem_of_bind. unfold columnsOfMetadatum in Hin.
    apply elem_of_app in Hin as [Hin | Hin];
      apply list_elem_of_fmap in Hin as (x & Hx & _); discriminate Hx. }
  assert (length (l ≫= columnsOfMetadatum (telemetryFormatter self)) = entries)
    as Hlen.
  { subst entries. clear. induction l as [|m l IH]; [done |].
    rewrite bind_cons, fmap_cons, length_app, IH. simpl.
    unfold columnsOfMetadatum. by rewrite length_app, !length_fmap. }
  destruct (l ≫= columnsOfMetadatum (telemetryFormatter self)) as [|c cs].
  - simpl in Hlen. rewrite <- Hlen. by repeat split.
  - split; [done |]. split.
    + intros i Hi. apply Hnoname. simpl in Hi.
      by apply list_elem_of_lookup_2 in Hi.
    + rewrite <- Hlen.
      destruct (decide _) as [Hzero | _]; [simpl in Hzero; lia | done].
Qed.

(** *** Headers and the column configuration *)

Context (getTitle : column → option string).

(** X11.  [getHeaders] gives one header per column, in order, and no
  header is the empty string: a column whose title is missing or empty
  is headed "Column n", with n its position counted from 1, and any other
  column is headed by its title. *)
Theorem getHeaders_nonempty self :
  length (getHeaders getTitle self) = length (columns self) ∧
  ("" ∉ getHeaders getTitle self) ∧
  (∀ i c, columns self !! i = Some c →
     (getTitle c = None ∨ getTitle c = Some "" →
        getHeaders getTitle self !! i
          = Some ("Column " +:+ number_to_string (i + 1))) ∧
     (∀ t, getTitle c = Some t → t ≠ "" →
        getHeaders getTitle self !! i = Some t)).
Proof.
  unfold getHeaders. split; [apply length_imap |]. split.
  - intros Hin. apply list_elem_of_lookup in Hin as [i Hi].
    rewrite list_lookup_imap in Hi.
    destruct (columns self !! i) as [c|]; [| done]. simpl in Hi.
    injection Hi as Hi. unfold titleOrDefault, getColumnTitle in Hi.
    destruct (getTitle c) as [t|] eqn:Ht; simpl in Hi.
    + destruct (String.eqb_spec t "") as [-> | Hne]; simpl in Hi;
        [discriminate Hi | done].
    + discriminate Hi.
  - intros i c Hc. rewrite list_lookup_imap, Hc. simpl.
    unfold titleOrDefault, getColumnTitle. split.
    + by intros [-> | ->].
    + intros t -> Hne. by rewrite (proj2 (truthy_string_Some t) Hne).
Qed.

(** Assigning a value computed from the key, key after key. *)
Lemma foldl_insert_lookup (f : string → bool) (titles : list string)
    (m : gmap string bool) (title : string) :
  foldl (λ configuration t, <[t := f t]> configuration) m titles !! title =
    if decide (title ∈ titles) then Some (f title) else m !! title.
Proof.
  revert m. induction titles as [|t titles IH]; intros m; simpl.
  - destruct (decide (title ∈ [])) as [Hin | _];
      [by apply elem_of_nil in Hin | done].
  - rewrite IH. destruct (decide (title ∈ titles)) as [Hin | Hout].
    + by rewrite decide_True by (by right).
    + destruct (decide (t = title)) as [-> | Hne].
      * rewrite decide_True by left. by rewrite lookup_insert_eq.
      * rewrite decide_False.
        -- by rewrite lookup_insert_ne.
        -- intros [? | ?]%elem_of_cons; congruence.
Qed.

Lemma getColumnConfiguration_lookup self (title : string) :
  getColumnConfiguration getTitle self !! title =
    if decide (title ∈ getHeaders getTitle self)
    then Some match defaultColumnConfiguration self !! title with
              | None => true
              | Some visible => visible
              end
    else None.
Proof.
  unfold getColumnConfiguration.
  rewrite (foldl_insert_lookup
             (λ t, match defaultColumnConfiguration self !! t with
                   | None => true
                   | Some visible => visible
                   end)).
  by rewrite lookup_empty.
Qed.

(** X12.  For a table none of whose headers is the name of a member of
  [Object.prototype], and for a title that is no such name either: the
  configuration [getColumnConfiguration] returns has the title as a key
  exactly when it is a header.  A header that the persisted configuration
  of the model mentions gets the persisted visibility, any other header
  is visible; when the model has no [configuration], no [table] or no
  [columns], the persisted configuration read is empty.  (Under an
  inherited name the code's reads and assignments reach the member of
  [Object.prototype], which a map from titles to booleans does not
  describe.) *)
Theorem getColumnConfiguration_defaults self (title : string) :
  (∀ header, header ∈ getHeaders getTitle self → inherited header = false) →
  inherited title = false →
  (title ∉ getHeaders getTitle self →
     getColumnConfiguration getTitle self !! title = None) ∧
  (title ∈ getHeaders getTitle self →
     (∀ visible, defaultColumnConfiguration self !! title = Some visible →
        getColumnConfiguration getTitle self !! title = Some visible) ∧
     (defaultColumnConfiguration self !! title = None →
        getColumnConfiguration getTitle self !! title = Some true)) ∧
  ((model_configuration (getModel (domainObject self)) = None ∨
    (∃ cfg, model_configuration (getModel (domainObject self)) = Some cfg ∧
       (configuration_table cfg = None ∨
        ∃ t, configuration_table cfg = Some t ∧ table_columns t = None))) →
   defaultColumnConfiguration self = ∅).
Proof.
  intros _ _.
  rewrite getColumnConfiguration_lookup. split; [| split].
  - intros Hout. by rewrite decide_False.
  - intros Hin. rewrite decide_True by done. split.
    + by intros visible ->.
    + by intros ->.
  - unfold defaultColumnConfiguration.
    intros [Hm | (cfg & Hm & Ht)]; rewrite Hm; simpl; [done |].
    destruct Ht as [Ht | (t & Ht & Hc)]; rewrite Ht; simpl; [done |].
    by rewrite Hc.
Qed.

End Columns.

(** X12, at a table with a name and a domain column and nothing
  persisted. *)
Lemma getColumnConfiguration_defaults_witness :
  let self := set_columns [NameColumn; DomainColumn "utc" tt] plainTable in
  getColumnConfiguration kindTitle self !! "Value" = Some true ∧
  getColumnConfiguration kindTitle self !! "Range" = None.
Proof.
  intros self.
  assert (∀ header, header ∈ getHeaders kindTitle self →
                    inherited header = false) as Hplain.
  { intros header Hin.
    apply elem_of_cons in Hin as [-> | Hin];
      [| apply list_elem_of_singleton in Hin as ->]; reflexivity. }
  split.
  - apply (proj1 (proj2 (getColumnConfiguration_defaults kindTitle self
                           "Value" Hplain eq_refl))); [| reflexivity].
    apply elem_of_cons. right. apply list_elem_of_singleton. reflexivity.
  - apply (proj1 (getColumnConfiguration_defaults kindTitle self
                    "Range" Hplain eq_refl)).
    intros Hin.
    apply elem_of_cons in Hin as [Hin | Hin]; [discriminate Hin |].
    apply list_elem_of_singleton in Hin. discriminate Hin.
Defined.

End TableColumns.

(** ** Saving the configuration and reading rows *)

Module TablePersistence.
Import JS TableConfiguration TableExamples StringFacts TableConfigurationFacts.
Import TableColumns.

Section Persistence.
Context {DomainMetadata RangeMetadata Formatter TelemetryObject Datum V : Type}.
Local Abbreviation column := (column DomainMetadata RangeMetadata Formatter).
Local Abbreviation TableConfiguration :=
  (TableConfiguration DomainMetadata RangeMetadata Formatter V).
Local Abbreviation columnValue := (columnValue V).
Implicit Types (self : TableConfiguration) (c : column).
Implicit Types (columnConfig : gmap string bool).

Lemma equal_true_eq (obj1 obj2 : gmap string bool) :
  equal obj1 obj2 = true ↔ obj1 = obj2.
Proof. by rewrite equal_spec, shallow_equal_eq. Qed.

(** X13.  [equal] holds exactly of two configurations with the same keys
  and the same visibility at every key; although it only walks the keys
  of its first argument, it is symmetric. *)
Theorem equal_decides (obj1 obj2 : gmap string bool) :
  (equal obj1 obj2 = true ↔ obj1 = obj2) ∧
  equal obj1 obj2 = equal obj2 obj1.
Proof.
  split; [apply equal_true_eq |].
  destruct (equal obj1 obj2) eqn:H12, (equal obj2 obj1) eqn:H21; try done.
  - apply equal_true_eq in H12 as ->.
    by rewrite (proj2 (equal_true_eq obj2 obj2) eq_refl) in H21.
  - apply equal_true_eq in H21 as ->.
    by rewrite (proj2 (equal_true_eq obj1 obj1) eq_refl) in H12.
Qed.

(** X14.  After [saveColumnConfiguration(c)] the stored configuration is
  [c], and saving the same configuration again changes nothing: the
  capability is not used a second time. *)
Theorem saveColumnConfiguration_idempotent self columnConfig :
  columnConfiguration (saveColumnConfiguration columnConfig self)
    = columnConfig ∧
  saveColumnConfiguration columnConfig
      (saveColumnConfiguration columnConfig self)
    = saveColumnConfiguration columnConfig self.
Proof.
  unfold saveColumnConfiguration at 1 3 4.
  destruct (equal (columnConfiguration self) columnConfig) eqn:Heq; simpl.
  - apply equal_true_eq in Heq. split; [done |].
    unfold saveColumnConfiguration.
    by rewrite (proj2 (equal_true_eq _ _) Heq).
  - split; [done |]. unfold saveColumnConfiguration. simpl.
    by rewrite (proj2 (equal_true_eq columnConfig columnConfig) eq_refl).
Qed.

Context (getTitle : column → option string).

(** X15.  What [saveColumnConfiguration] writes is what
  [defaultColumnConfiguration] reads back; and saving the configuration
  that [getColumnConfiguration] computes leaves [getColumnConfiguration]
  unchanged. *)
Theorem save_then_read self columnConfig :
  (equal (columnConfiguration self) columnConfig = false →
     defaultColumnConfiguration (saveColumnConfiguration columnConfig self)
       = columnConfig) ∧
  getColumnConfiguration getTitle
      (saveColumnConfiguration (getColumnConfiguration getTitle self) self)
    = getColumnConfiguration getTitle self.
Proof.
  split.
  - intros Heq. unfold saveColumnConfiguration. by rewrite Heq.
  - unfold saveColumnConfiguration.
    destruct (equal (columnConfiguration self)
                (getColumnConfiguration getTitle self)) eqn:Heq; [done |].
    simpl. apply map_eq. intros title.
    rewrite getColumnConfiguration_lookup.
    change (defaultColumnConfiguration _)
      with (getColumnConfiguration getTitle self).
    change (getHeaders getTitle _) with (getHeaders getTitle self).
    rewrite (getColumnConfiguration_lookup getTitle self title).
    by destruct (decide (title ∈ getHeaders getTitle self)).
Qed.

(** *** Rows *)

Context (getValue : column → TelemetryObject → Datum → option columnValue).
Context (telemetryObject : TelemetryObject) (datum : Datum).
Local Abbreviation step := (rowStep getTitle getValue telemetryObject datum).
Implicit Types (rowObject : gmap string (option columnValue)).

(** What a column contributes to the row: its value, with an undefined
  [text] replaced by the empty string. *)
Local Abbreviation contribution c :=
  (match getValue c telemetryObject datum with
   | Some v =>
       match text v with
       | None => Some {| text := Some ""; value_other := value_other v |}
       | Some _ => Some v
       end
   | None => None
   end).




(** A title none of the columns carries is left alone. *)
Lemma reduce_from_other (cols : list column) (i : nat) rowObject
    (title : string) :
  title ∉ imap (λ j c, titleOrDefault getTitle c (i + j)) cols →
  reduce_from step cols i rowObject !! title = rowObject !! title.
Proof.
  revert i rowObject.
  induction cols as [|c cols IH]; intros i rowObject Hout; [done |].
  rewrite imap_cons, Nat.add_0_r in Hout.
  apply not_elem_of_cons in Hout as [Hne Hout].
  simpl. rewrite IH.
  - unfold rowStep.
    destruct (replaceable (rowObject !! titleOrDefault getTitle c i));
      [| done].
    by rewrite lookup_insert_ne.
  - erewrite imap_ext; [exact Hout |]. intros j x _. simpl. f_equal. lia.
Qed.

Lemma reduce_from_distinct (cols : list column) (i : nat) rowObject :
  NoDup (imap (λ j c, titleOrDefault getTitle c (i + j)) cols) →
  (∀ j c, cols !! j = Some c →
     rowObject !! titleOrDefault getTitle c (i + j) = None) →
  ∀ j c, cols !! j = Some c →
    reduce_from step cols i rowObject !! titleOrDefault getTitle c (i + j)
      = Some (contribution c).
Proof.
  revert i rowObject.
  induction cols as [|c0 cols IH]; intros i rowObject Hnodup Hfree j c Hc;
    [done |].
  rewrite imap_cons, Nat.add_0_r in Hnodup.
  apply NoDup_cons in Hnodup as [Hnotin Hnodup].
  assert (imap ((λ j c, titleOrDefault getTitle c (i + j)) ∘ S) cols =
          imap (λ j c, titleOrDefault getTitle c (S i + j)) cols) as Hshift.
  { apply imap_ext. intros k x _. simpl. f_equal. lia. }
  rewrite Hshift in Hnotin, Hnodup.
  assert (step rowObject c0 i =
            <[titleOrDefault getTitle c0 i := contribution c0]> rowObject)
    as Hstep.
  { unfold rowStep. specialize (Hfree 0 c0 eq_refl).
    rewrite Nat.add_0_r in Hfree. by rewrite Hfree. }
  simpl. rewrite Hstep. destruct j as [|j].
  - injection Hc as <-. rewrite Nat.add_0_r.
    rewrite reduce_from_other by done. by rewrite lookup_insert_eq.
  - simpl in Hc. replace (i + S j) with (S i + j) by lia.
    apply IH; [done | | done].
    intros k x Hx.
    rewrite lookup_insert_ne.
    + specialize (Hfree (S k) x Hx).
      by replace (i + S k) with (S i + k) in Hfree by lia.
    + intros Heq. apply Hnotin. rewrite Heq.
      apply list_elem_of_lookup. exists k.
      by rewrite list_lookup_imap, Hx.
Qed.

(** X17.  When the headers are pairwise distinct and none of them is
  [__proto__], the row object has, for each column, under that column's
  header, the value the column returned for the datum, with an undefined
  [text] replaced by the empty string (and [undefined] when the column
  returned [undefined]).  (A header that is another inherited name does
  no harm: the read yields a member of [Object.prototype], which has no
  [text] and so passes the guard as [undefined] does, and the assignment
  creates an own property.  An assignment to [__proto__] creates none and
  may replace the prototype of the row object.) *)
Theorem getRowValues_distinct_headers self (i : nat) c :
  NoDup (getHeaders getTitle self) →
  "__proto__" ∉ getHeaders getTitle self →
  columns self !! i = Some c →
  getRowValues getTitle getValue telemetryObject datum self
      !! titleOrDefault getTitle c i
    = Some (contribution c).
Proof.
  intros Hnodup _ Hc. unfold getRowValues.
  apply (reduce_from_distinct (columns self) 0 ∅); [done | | done].
  intros j x _. apply lookup_empty.
Qed.

End Persistence.

(** X17, at a name column and a domain column. *)
Lemma getRowValues_distinct_headers_witness :
  let self := set_columns [NameColumn; DomainColumn "12:00" tt] plainTable in
  getRowValues kindTitle nameValue tt tt self !! "Value" =
    Some (Some {| text := Some "12:00"; value_other := ∅ |}) ∧
  getRowValues kindTitle nameValue tt tt self !! "Name" = Some None.
Proof.
  intros self.
  assert (NoDup (getHeaders kindTitle self)) as Hnodup.
  { apply NoDup_cons. split; [| apply NoDup_singleton].
    intros Hin. apply list_elem_of_singleton in Hin. discriminate Hin. }
  assert ("__proto__" ∉ getHeaders kindTitle self) as Hplain.
  { intros Hin. apply elem_of_cons in Hin as [Hin | Hin]; [discriminate Hin |].
    apply list_elem_of_singleton in Hin. discriminate Hin. }
  split.
  - by apply (getRowValues_distinct_headers kindTitle nameValue tt tt self 1
                (DomainColumn "12:00" tt)).
  - by apply (getRowValues_distinct_headers kindTitle nameValue tt tt self 0
                NameColumn).
Defined.


End TablePersistence.

(** ** The maps of the representation directive *)

Module MCTRepresentationFacts.
Import JS MCTRepresentation.

Implicit Types (r v : representation) (m : maps).
Implicit Types (representations views l : list representation).

(** Both maps after a run of the loop body over [l], started from [m]. *)
Lemma foldl_assembleOne m l (k : string) :
  k ≠ "__proto__" →
  representationMap (foldl assembleOne m l) !! k =
    match last (filter (λ r, key r = k) l) with
    | Some r => Some r
    | None => representationMap m !! k
    end ∧
  pathMap (foldl assembleOne m l) !! k =
    match last (filter (λ r, key r = k) l) with
    | Some r => Some (templatePath r)
    | None => pathMap m !! k
    end.
Proof.
  intros Hplain.
  induction l as [|r l IH] using rev_ind; [done |].
  rewrite foldl_snoc, filter_app. simpl. unfold assign.
  destruct (decide (key r = k)) as [Hk | Hk].
  - rewrite (filter_cons_True (λ r, key r = k)) by done.
    rewrite filter_nil, last_snoc.
    rewrite (proj2 (String.eqb_neq (key r) "__proto__")) by congruence.
    rewrite <- Hk. by rewrite !lookup_insert_eq.
  - rewrite (filter_cons_False (λ r, key r = k)) by done.
    rewrite filter_nil, app_nil_r.
    destruct (String.eqb (key r) "__proto__"); [done |].
    by rewrite !lookup_insert_ne.
Qed.

Lemma assemble_lookup representations views (k : string) :
  k ≠ "__proto__" →
  representationMap (assemble representations views) !! k =
    last (filter (λ r, key r = k) (representations ++ views)) ∧
  pathMap (assemble representations views) !! k =
    templatePath <$> last (filter (λ r, key r = k) (representations ++ views)).
Proof.
  intros Hplain. unfold assemble.
  destruct (foldl_assembleOne {| pathMap := ∅; representationMap := ∅ |}
              (representations ++ views) k Hplain) as [-> ->].
  cbn [representationMap pathMap].
  rewrite (lookup_empty (M := gmap string)),
          (lookup_empty (M := gmap string) (A := string)).
  by destruct (last _).
Qed.

(** X18.  When no representation or view is keyed [__proto__], then for
  every key that is not the name of a member of [Object.prototype]: of
  the representations and views that share the key the last one wins,
  views coming after representations: [representationMap] holds that
  extension, which carries the key it is stored under, and [pathMap]
  holds its template path, so the two maps agree on whether they have
  the key.  A key that some view carries is therefore always mapped to a
  view.  The path is the bundle's path, the bundle's resources and the
  template URL joined by slashes.  (An assignment under [__proto__]
  creates no key and may replace a map's prototype, and a read of an
  inherited name that no extension carries yields the member of
  [Object.prototype].) *)
Theorem assemble_last_wins representations views (k : string) :
  (∀ r, r ∈ representations ++ views → key r ≠ "__proto__") →
  inherited k = false →
  let m := assemble representations views in
  representationMap m !! k =
    last (filter (λ r, key r = k) (representations ++ views)) ∧
  pathMap m !! k = templatePath <$> representationMap m !! k ∧
  (∀ r, representationMap m !! k = Some r →
     key r = k ∧ r ∈ representations ++ views) ∧
  (∀ v, v ∈ views → key v = k →
     ∃ r, representationMap m !! k = Some r ∧ r ∈ views) ∧
  (∀ (p res url : string) u g,
     templatePath {| key := k;
                     bundle := {| path := Some p; resources := Some res |};
                     templateUrl := Some url; uses := u; gestures := g |}
       = p +:+ "/" +:+ res +:+ "/" +:+ url).
Proof.
  intros _ Hown m. subst m.
  assert (k ≠ "__proto__") as Hplain.
  { intros ->. vm_compute in Hown. discriminate Hown. }
  destruct (assemble_lookup representations views k Hplain) as [-> ->].
  split; [done |]. split; [done |]. split; [| split].
  - intros r Hr.
    apply last_Some_elem_of, list_elem_of_filter in Hr. done.
  - intros v Hv Hk. rewrite filter_app, last_app.
    destruct (last (filter (λ r, key r = k) views)) as [r|] eqn:Hlast.
    + exists r. split; [done |].
      by apply last_Some_elem_of, list_elem_of_filter in Hlast as [_ ?].
    + apply last_None in Hlast.
      destruct (filter_nil_not_elem_of (λ r, key r = k) views v Hlast Hk Hv).
  - reflexivity.
Qed.

(** X18, at a representation and a view that share the key [plot]. *)
Lemma assemble_last_wins_witness :
  let item (url : string) :=
    {| key := "plot"; bundle := {| path := Some "platform"; resources := Some "res" |};
       templateUrl := Some url; uses := None; gestures := None |} in
  representationMap (assemble [item "a.html"] [item "b.html"]) !! "plot"
    = Some (item "b.html") ∧
  pathMap (assemble [item "a.html"] [item "b.html"]) !! "plot"
    = Some "platform/res/b.html".
Proof.
  intros item.
  destruct (assemble_last_wins [item "a.html"] [item "b.html"] "plot")
    as (Hrep & Hpath & _).
  - intros r Hr. simpl in Hr.
    apply elem_of_cons in Hr as [-> | Hr];
      [| apply list_elem_of_singleton in Hr as ->]; discriminate.
  - reflexivity.
  - split; [exact Hrep |]. rewrite Hpath, Hrep. reflexivity.
Defined.

End MCTRepresentationFacts.
